(** * shuldan/app: the application lifecycle coordinator

    A shallow embedding of the Go package [app]: the module registry
    (registry.go), the metadata carried by the context, the runner that
    sequences Init / Start / Stop over the registered modules, the
    background-error fan-in and the [Application] state machine with its
    shutdown routine, its options, its health check and its uptime.

    Go values are modelled as follows.
    - [error] interface values: [option error], [None] being [nil].
    - [context.Context]: the chain of derivations [Ctx]; whether a context
      has been cancelled is part of the environment, not of the value.
    - modules and hooks: records of state transformers over a world [W]
      that stands for everything user code can read and write.
    - the logger, module and hook calls, goroutine launches and
      cancellations are recorded, in program order, in a trace of events.
    - goroutines and [select]: the scheduler's choices are inputs. *)

From Stdlib Require Import ZArith List Bool Lia.
From stdpp Require Import base option list gmap strings.
Import ListNotations.

Local Open Scope string_scope.
Local Open Scope Z_scope.
Local Open Scope list_scope.

Set Warnings "-register-all".

(** ** Errors *)

(** Modelled from the spec: the package-level sentinel errors. Their
    declarations ([errors.New] values in the package's errors file) are not
    among the sources; the kinds are those the code returns and the tests
    compare against with [errors.Is]. *)
Inductive Sentinel :=
| ApplicationAlreadyRunning
| GracefulShutdownTimedOut
| RegistrationClosed
| ModuleAlreadyRegistered
| ModuleNameEmpty
| AppNameEmpty
| ShutdownTimeoutNonPositive.

#[global] Instance Sentinel_eq_dec : EqDecision Sentinel.
Proof. solve_decision. Defined.

(** A non-nil Go [error]: a sentinel of this package, an error value
    produced by user code (a module or a hook), the result of
    [fmt.Errorf] with one [%w] verb (format string, the other arguments,
    the wrapped error), or the result of [errors.Join]. *)
Inductive error :=
| Pkg (s : Sentinel)
| External (id : string)
| Errorf (format : string) (args : list string) (wrapped : error)
| Join (errs : list error).

Definition ErrApplicationAlreadyRunning := Pkg ApplicationAlreadyRunning.
Definition ErrGracefulShutdownTimedOut := Pkg GracefulShutdownTimedOut.
Definition ErrRegistrationClosed := Pkg RegistrationClosed.
Definition ErrModuleAlreadyRegistered := Pkg ModuleAlreadyRegistered.
Definition ErrModuleNameEmpty := Pkg ModuleNameEmpty.
Definition ErrAppNameEmpty := Pkg AppNameEmpty.
Definition ErrShutdownTimeoutNonPositive := Pkg ShutdownTimeoutNonPositive.

(** Go's [==] on error values, for the values that are comparable by
    content here: sentinels and user errors. Wrapped and joined errors are
    fresh allocations and never equal to a target. *)
Definition error_same (e target : error) : bool :=
  match e, target with
  | Pkg a, Pkg b => bool_decide (a = b)
  | External a, External b => bool_decide (a = b)
  | _, _ => false
  end.

(** [errors.Is]: the error itself, or anything reachable through
    [Unwrap() error] (of [fmt.Errorf]) and [Unwrap() []error] (of
    [errors.Join]). *)
Fixpoint errors_Is (err target : error) : bool :=
  error_same err target ||
  match err with
  | Errorf _ _ w => errors_Is w target
  | Join es => existsb (fun e => errors_Is e target) es
  | _ => false
  end.

(** [errors.Join]: nil arguments are discarded; the result is nil when
    nothing is left. *)
Definition errors_Join (errs : list (option error)) : option error :=
  match omap id errs with
  | [] => None
  | es => Some (Join es)
  end.

(** ** Context and application metadata (meta.go) *)

Definition Time := Z.
Definition zeroTime : Time := 0.

(** The dynamic values stored in a context. *)
Inductive any :=
| AnyString (s : string)
| AnyTime (t : Time)
| AnyOther (tag : string).

(** Context keys: the four unexported key types of this package, and the
    keys of all other code. *)
Inductive ctxKey :=
| contextKeyAppName
| contextKeyAppVersion
| contextKeyAppEnvironment
| contextKeyAppStartTime
| foreignKey (id : string).

#[global] Instance ctxKey_eq_dec : EqDecision ctxKey.
Proof. solve_decision. Defined.

Inductive Ctx :=
| Background
| WithValue (parent : Ctx) (k : ctxKey) (v : any)
| WithCancel (parent : Ctx)
| WithTimeout (parent : Ctx) (d : Z).

(** [ctx.Value(key)]: the innermost binding of the key, nil if none. *)
Fixpoint Value (ctx : Ctx) (key : ctxKey) : option any :=
  match ctx with
  | Background => None
  | WithValue parent k v => if decide (k = key) then Some v else Value parent key
  | WithCancel parent => Value parent key
  | WithTimeout parent _ => Value parent key
  end.

Record meta := mkMeta {
  name : string;
  version : string;
  environment : string;
  startTime : Time;
  stopTime : Time
}.

Definition enrichContext (m : meta) (ctx : Ctx) : Ctx :=
  let ctx := WithValue ctx contextKeyAppName (AnyString (name m)) in
  let ctx := WithValue ctx contextKeyAppVersion (AnyString (version m)) in
  let ctx := WithValue ctx contextKeyAppEnvironment (AnyString (environment m)) in
  let ctx := WithValue ctx contextKeyAppStartTime (AnyTime (startTime m)) in
  ctx.

(** [v, _ := ctx.Value(k).(string)]: the zero value when the assertion
    fails. *)
Definition assertString (v : option any) : string :=
  match v with Some (AnyString s) => s | _ => "" end.

Definition assertTime (v : option any) : Time :=
  match v with Some (AnyTime t) => t | _ => zeroTime end.

Definition NameFromContext (ctx : Ctx) : string :=
  assertString (Value ctx contextKeyAppName).

Definition VersionFromContext (ctx : Ctx) : string :=
  assertString (Value ctx contextKeyAppVersion).

Definition EnvironmentFromContext (ctx : Ctx) : string :=
  assertString (Value ctx contextKeyAppEnvironment).

Definition StartTimeFromContext (ctx : Ctx) : Time :=
  assertTime (Value ctx contextKeyAppStartTime).

Definition isAppKey (k : ctxKey) : bool :=
  match k with foreignKey _ => false | _ => true end.

(** A context is enriched when some [WithValue] layer of it binds one of
    the package's keys. The key types are unexported, so only
    [enrichContext] builds such a layer. *)
Fixpoint enriched (ctx : Ctx) : bool :=
  match ctx with
  | Background => false
  | WithValue parent k _ => isAppKey k || enriched parent
  | WithCancel parent => enriched parent
  | WithTimeout parent _ => enriched parent
  end.

(** The contexts user code derives from [base]: [base] itself, and any
    context built on it with [context.WithCancel], [context.WithTimeout]
    or [context.WithValue] under a key of its own. *)
Inductive derived_from (base : Ctx) : Ctx -> Prop :=
| derived_base : derived_from base base
| derived_cancel c : derived_from base c -> derived_from base (WithCancel c)
| derived_timeout c d : derived_from base c -> derived_from base (WithTimeout c d)
| derived_value c id v :
    derived_from base c -> derived_from base (WithValue c (foreignKey id) v).

(** ** Modules, hooks, registry and application (module.go, hooks.go,
       registry.go, application.go) *)

(** What one receive [v, ok := <-ch] on a module's error channel yields:
    the channel never signals, it is closed, or it delivers a value
    (possibly a nil error). *)
Inductive Recv :=
| RecvBlock
| RecvClosed
| RecvValue (e : option error).

Inductive Level := LevelInfo | LevelError.

Inductive LogArg :=
| LogString (s : string)
| LogErr (e : option error).

Inductive HookKind := KBeforeStart | KAfterStart | KBeforeStop | KAfterStop.

Section Model.

Context {W : Type}.

(** A lifecycle call of user code: it returns an error (or nil) and
    changes the world. *)
Definition Call := Ctx -> W -> option error * W.

(** The [Module] interface, with the optional [BackgroundModule] ([Err])
    and [HealthChecker] ([Health]) capabilities; [None] when the dynamic
    type does not implement them. *)
Record AppModule := mkModule {
  Name : string;
  Init : Call;
  Start : Call;
  Stop : Call;
  Err : option (W -> Recv);
  Health : option Call
}.

(** The [Hook] struct; [None] is a nil func. *)
Record Hook := mkHook {
  BeforeStart : option Call;
  AfterStart : option Call;
  BeforeStop : option Call;
  AfterStop : option Call
}.

Record registry := mkRegistry {
  modules : list AppModule;
  names : gset string;
  locked : bool
}.

Record Application := mkApplication {
  app_meta : meta;
  app_registry : registry;
  hooks : list Hook;
  isRunning : bool;
  shutdownTimeout : Z
}.

(** What the program does, in program order. *)
Inductive Event :=
| EvLog (lvl : Level) (msg : string) (args : list (string * LogArg))
| EvInit (m : AppModule) (ctx : Ctx) (r : option error)
| EvStart (m : AppModule) (ctx : Ctx) (r : option error)
| EvStop (m : AppModule) (ctx : Ctx) (r : option error)
| EvHook (k : HookKind) (ctx : Ctx) (r : option error)
| EvGo (goroutine : string)
| EvCancel (ctx : Ctx).

Record State := mkState {
  world : W;
  trace : list Event;
  app : Application
}.

(** *** The state monad of the embedding *)

Definition M (A : Type) : Type := State -> A * State.

Definition ret {A} (x : A) : M A := fun s => (x, s).

Definition bind {A B} (c : M A) (k : A -> M B) : M B :=
  fun s => let '(x, s1) := c s in k x s1.

Definition emit (e : Event) : M unit :=
  fun s => (tt, mkState (world s) (trace s ++ [e]) (app s)).

Definition getApp : M Application := fun s => (app s, s).

Definition getWorld : M W := fun s => (world s, s).

Definition setApp (a : Application) : M unit :=
  fun s => (tt, mkState (world s) (trace s) a).

(** Run user code on the world and record the call with its result. *)
Definition call (f : Call) (ev : Ctx -> option error -> Event) (ctx : Ctx)
  : M (option error) :=
  fun s =>
    let '(r, w) := f ctx (world s) in
    (r, mkState w (trace s ++ [ev ctx r]) (app s)).

Definition logInfo (msg : string) (args : list (string * LogArg)) : M unit :=
  emit (EvLog LevelInfo msg args).

Definition logError (msg : string) (args : list (string * LogArg)) : M unit :=
  emit (EvLog LevelError msg args).

End Model.

Arguments AppModule W : clear implicits.
Arguments Hook W : clear implicits.
Arguments registry W : clear implicits.
Arguments Application W : clear implicits.
Arguments Event W : clear implicits.
Arguments State W : clear implicits.
Arguments Call W : clear implicits.
Arguments M W A : clear implicits.

Declare Scope go_scope.
Delimit Scope go_scope with go.
Notation "x <- c ;; k" := (bind c (fun x => k))
  (at level 100, c at next level, right associativity) : go_scope.
Notation "c ;;; k" := (bind c (fun _ => k))
  (at level 100, right associativity) : go_scope.

Local Open Scope go_scope.

Section Program.

Context {W : Type}.

#[local] Abbreviation AppModule := (AppModule W).
#[local] Abbreviation Hook := (Hook W).
#[local] Abbreviation registry := (registry W).
#[local] Abbreviation Application := (Application W).
#[local] Abbreviation State := (State W).
#[local] Abbreviation Call := (Call W).
#[local] Abbreviation M := (M W).

(** ** The registry (registry.go) *)

Definition newRegistry : registry := mkRegistry [] ∅ false.

(** [register]: the mutex only serialises callers; here calls are
    sequential, one registry state to the next. *)
Definition register (r : registry) (module : AppModule)
  : option error * registry :=
  if locked r then (Some ErrRegistrationClosed, r)
  else
    let name := Name module in
    if decide (name = "") then (Some ErrModuleNameEmpty, r)
    else if decide (name ∈ names r) then
      (Some (Errorf "%w: %s" [name] ErrModuleAlreadyRegistered), r)
    else
      (None, mkRegistry (modules r ++ [module]) ({[name]} ∪ names r) (locked r)).

Definition lock (r : registry) : registry :=
  mkRegistry (modules r) (names r) true.

(** [getAll] copies the slice; lists are values, so the copy is the list. *)
Definition getAll (r : registry) : list AppModule := modules r.

Definition registry_getAll : M (list AppModule) :=
  fun s => (getAll (app_registry (app s)), s).

(** ** The runner (runner.go) *)

Definition callInit (m : AppModule) : Ctx -> M (option error) :=
  call (Init m) (EvInit m).

Definition callStart (m : AppModule) : Ctx -> M (option error) :=
  call (Start m) (EvStart m).

Definition callStop (m : AppModule) : Ctx -> M (option error) :=
  call (Stop m) (EvStop m).

(** The body of [for _, module := range ...] in [initAll]. *)
Fixpoint initAll_range (ctx : Ctx) (ms : list AppModule) : M (option error) :=
  match ms with
  | [] => ret None
  | module :: rest =>
      logInfo "initializing module" [("module", LogString (Name module))] ;;;
      err <- callInit module ctx ;;
      match err with
      | Some e => ret (Some (Errorf "init module %q: %w" [Name module] e))
      | None => initAll_range ctx rest
      end
  end.

Definition initAll (ctx : Ctx) : M (option error) :=
  ms <- registry_getAll ;;
  initAll_range ctx ms.

(** [for i := len(modules) - 1; i >= 0; i--]: [n] is [i + 1], the number
    of iterations left; [errs] is the slice of collected errors. *)
Fixpoint shutdownModules_loop (ctx : Ctx) (ms : list AppModule) (n : nat)
    (errs : list error) : M (list error) :=
  match n with
  | O => ret errs
  | S i =>
      match ms !! i with
      | None => ret errs
      | Some m =>
          logInfo "stopping module" [("module", LogString (Name m))] ;;;
          err <- callStop m ctx ;;
          match err with
          | Some e =>
              let wrappedErr := Errorf "stop module %q: %w" [Name m] e in
              logError "failed to stop module"
                [("module", LogString (Name m)); ("error", LogErr (Some e))] ;;;
              shutdownModules_loop ctx ms i (errs ++ [wrappedErr])
          | None => shutdownModules_loop ctx ms i errs
          end
      end
  end.

Definition shutdownModules (ctx : Ctx) (ms : list AppModule) : M (option error) :=
  errs <- shutdownModules_loop ctx ms (length ms) [] ;;
  ret (errors_Join (Some <$> errs)).

Definition shutdownAll (ctx : Ctx) : M (option error) :=
  ms <- registry_getAll ;;
  shutdownModules ctx ms.

(** The loop of [startAll]; [started] is the slice of modules started so
    far. The result is the pair [(startedModules, err)], a nil slice being
    [None]. *)
Fixpoint startAll_range (ctx : Ctx) (ms started : list AppModule)
  : M (option (list AppModule) * option error) :=
  match ms with
  | [] => ret (Some started, None)
  | module :: rest =>
      logInfo "starting module" [("module", LogString (Name module))] ;;;
      err <- callStart module ctx ;;
      match err with
      | Some e =>
          shutdownErr <- shutdownModules Background started ;;
          ret (None,
               errors_Join
                 [Some (Errorf "start module %q: %w" [Name module] e);
                  shutdownErr])
      | None => startAll_range ctx rest (started ++ [module])
      end
  end.

Definition startAll (ctx : Ctx) : M (option (list AppModule) * option error) :=
  ms <- registry_getAll ;;
  startAll_range ctx ms [].

(** ** Hooks (application.go, [runHooks...]) *)

(** The common shape of the four [runHooks...] loops: call the selected
    callback of every hook in order, skip nil callbacks, stop at the first
    error. *)
Fixpoint runHooks_range (k : HookKind) (sel : Hook -> option Call)
    (ctx : Ctx) (hs : list Hook) : M (option error) :=
  match hs with
  | [] => ret None
  | h :: rest =>
      match sel h with
      | Some f =>
          err <- call f (EvHook k) ctx ;;
          match err with
          | Some e => ret (Some e)
          | None => runHooks_range k sel ctx rest
          end
      | None => runHooks_range k sel ctx rest
      end
  end.

Definition runHooksBeforeStart (ctx : Ctx) : M (option error) :=
  a <- getApp ;; runHooks_range KBeforeStart BeforeStart ctx (hooks a).

Definition runHooksAfterStart (ctx : Ctx) : M (option error) :=
  a <- getApp ;; runHooks_range KAfterStart AfterStart ctx (hooks a).

Definition runHooksBeforeStop (ctx : Ctx) : M (option error) :=
  a <- getApp ;; runHooks_range KBeforeStop BeforeStop ctx (hooks a).

Definition runHooksAfterStop (ctx : Ctx) : M (option error) :=
  a <- getApp ;; runHooks_range KAfterStop AfterStop ctx (hooks a).

(** ** The background-error fan-in ([collectBackgroundErrors]) *)

(** Where a reader goroutine stands: blocked on [<-bg.Err()], about to
    send on [merged], about to run the deferred [wg.Done()], finished. *)
Inductive ReaderPc :=
| AtRecv
| AtSend (e : error)
| AtDone
| Finished.

Record Reader := mkReader {
  r_name : string;
  r_chan : Recv;
  r_pc : ReaderPc
}.

(** The shared objects of the fan-in: the reader goroutines, the buffered
    channel [merged] (buffer, capacity, closed flag) and the counter of
    the [sync.WaitGroup]. *)
Record FanIn := mkFanIn {
  readers : list Reader;
  merged : list error;
  capacity : nat;
  closed : bool;
  wg : nat
}.

(** The goroutines of the fan-in the scheduler can run. *)
Inductive Task :=
| TReader (i : nat)
| TCloser.

Definition set_pc (r : Reader) (pc : ReaderPc) : Reader :=
  mkReader (r_name r) (r_chan r) pc.

(** One step of reader [i]; a blocked or finished reader does not move. *)
Definition step_reader (i : nat) (a : FanIn) : FanIn :=
  match readers a !! i with
  | None => a
  | Some r =>
      match r_pc r with
      | AtRecv =>
          match r_chan r with
          | RecvBlock => a
          | RecvValue (Some e) =>
              let pc := AtSend (Errorf "background module %q: %w" [r_name r] e) in
              mkFanIn (<[i := set_pc r pc]> (readers a))
                (merged a) (capacity a) (closed a) (wg a)
          | _ =>
              mkFanIn (<[i := set_pc r AtDone]> (readers a))
                (merged a) (capacity a) (closed a) (wg a)
          end
      | AtSend e =>
          if (length (merged a) <? capacity a)%nat then
            mkFanIn (<[i := set_pc r AtDone]> (readers a))
              (merged a ++ [e]) (capacity a) (closed a) (wg a)
          else a
      | AtDone =>
          mkFanIn (<[i := set_pc r Finished]> (readers a))
            (merged a) (capacity a) (closed a) (wg a - 1)%nat
      | Finished => a
      end
  end.

(** The closer goroutine: [wg.Wait()] then [close(merged)], once. *)
Definition step_closer (a : FanIn) : FanIn :=
  if closed a then a
  else if (wg a =? 0)%nat then
    mkFanIn (readers a) (merged a) (capacity a) true (wg a)
  else a.

Definition step_task (t : Task) (a : FanIn) : FanIn :=
  match t with
  | TReader i => step_reader i a
  | TCloser => step_closer a
  end.

(** The fan-in after the scheduler ran the given tasks in order. *)
Definition run_tasks (ts : list Task) (a : FanIn) : FanIn :=
  fold_left (fun a t => step_task t a) ts a.

(** A receive on [merged] is ready when the buffer holds a value or the
    channel is closed; it yields the oldest buffered value, or nil from a
    closed and drained channel. *)
Definition chan_ready (a : FanIn) : bool :=
  match merged a with
  | _ :: _ => true
  | [] => closed a
  end.

Definition chan_recv (a : FanIn) : option error := head (merged a).

(** [for _, m := range modules { if bg, ok := m.(BackgroundModule) ... }] *)
Definition bgModules_of (ms : list AppModule) : list (string * (W -> Recv)) :=
  omap (fun m => match Err m with
                 | Some ch => Some (Name m, ch)
                 | None => None
                 end) ms.

(** [wg.Add(1); go func(bg) {...}(bg)] for every background module. *)
Fixpoint spawn_readers (w : W) (bgs : list (string * (W -> Recv)))
  : M (list Reader) :=
  match bgs with
  | [] => ret []
  | bg :: rest =>
      emit (EvGo "background reader") ;;;
      rs <- spawn_readers w rest ;;
      ret (mkReader (fst bg) (snd bg w) AtRecv :: rs)
  end.

(** [collectBackgroundErrors]; the nil channel is [None]. *)
Definition collectBackgroundErrors : M (option FanIn) :=
  ms <- registry_getAll ;;
  let bgModules := bgModules_of ms in
  if (length bgModules =? 0)%nat then ret None
  else
    w <- getWorld ;;
    rs <- spawn_readers w bgModules ;;
    emit (EvGo "background closer") ;;;
    ret (Some (mkFanIn rs [] (length bgModules) false (length bgModules))).

(** ** The application (application.go) *)

(** How the race of [shutdown] ends: [shutdownAll] delivers its result
    first, or the timer fires first, the abandoned goroutine having
    completed [stopped] calls of [Stop] by then. *)
Inductive Race :=
| StopFirst
| TimerFirst (stopped : nat).

(** The scheduler and the environment of one [Run]: the two readings of
    [time.Now()], whether the run context gets cancelled (a signal, or the
    caller) while [Run] waits, the steps the fan-in goroutines have taken
    by then, the case [select] picks when both are ready, and the outcome
    of the shutdown race. *)
Record Sched := mkSched {
  timeStart : Time;
  timeStop : Time;
  ctxDone : bool;
  bgTasks : list Task;
  preferBg : bool;
  race : Race
}.

Inductive SelectCase := CaseCtxDone | CaseBgErr.

(** The cases of [select { case <-ctx.Done(): ... case bgErr := <-bgErrCh: ... }]
    that are ready. A receive on a nil channel is never ready. *)
Definition select_ready (done : bool) (bgErrCh : option FanIn) : list SelectCase :=
  (if done then [CaseCtxDone] else []) ++
  match bgErrCh with
  | Some a => if chan_ready a then [CaseBgErr] else []
  | None => []
  end.

(** The case [select] runs: none while no case is ready (the goroutine
    stays blocked), the ready one, or the scheduler's pick among two. *)
Definition select_pick (prefer : bool) (ready : list SelectCase) : option SelectCase :=
  match ready with
  | [] => None
  | [c] => Some c
  | _ => Some (if prefer then CaseBgErr else CaseCtxDone)
  end.

Definition set_isRunning (b : bool) : M unit :=
  a <- getApp ;;
  setApp (mkApplication (app_meta a) (app_registry a) (hooks a) b (shutdownTimeout a)).

Definition registry_lock : M unit :=
  a <- getApp ;;
  setApp (mkApplication (app_meta a) (lock (app_registry a)) (hooks a)
            (isRunning a) (shutdownTimeout a)).

Definition set_startTime (t : Time) : M unit :=
  a <- getApp ;;
  let m := app_meta a in
  setApp (mkApplication
            (mkMeta (name m) (version m) (environment m) t (stopTime m))
            (app_registry a) (hooks a) (isRunning a) (shutdownTimeout a)).

Definition set_stopTime (t : Time) : M unit :=
  a <- getApp ;;
  let m := app_meta a in
  setApp (mkApplication
            (mkMeta (name m) (version m) (environment m) (startTime m) t)
            (app_registry a) (hooks a) (isRunning a) (shutdownTimeout a)).

(** The part of [shutdownAll] the abandoned goroutine has run when the
    timer fires: the first [k] iterations of the loop, that is the loop
    over the last [k] modules. Its result is sent on [errCh] and never
    read. *)
Definition shutdownAll_abandoned (ctx : Ctx) (k : nat) : M unit :=
  ms <- registry_getAll ;;
  shutdownModules ctx (drop (length ms - k) ms) ;;;
  ret tt.

(** [shutdown]. The deferred calls run last, in reverse order of their
    [defer] statements: [timeoutCancel], then the function that stamps the
    stop time and resets the run flag. *)
Definition shutdown (o : Sched) : M (option error) :=
  let hookCtx := Background in
  err <- runHooksBeforeStop hookCtx ;;
  match err with
  | Some e => logError "before stop hook failed" [("error", LogErr (Some e))]
  | None => ret tt
  end ;;;
  a <- getApp ;;
  let shutdownCtx := WithTimeout Background (shutdownTimeout a) in
  shutdownErr <-
    (if 0 <? shutdownTimeout a then
       emit (EvGo "shutdownAll") ;;;
       match race o with
       | StopFirst => shutdownAll shutdownCtx
       | TimerFirst k =>
           shutdownAll_abandoned shutdownCtx k ;;;
           ret (Some ErrGracefulShutdownTimedOut)
       end
     else shutdownAll Background) ;;
  match shutdownErr with
  | Some e => logError "shutdown completed with errors" [("error", LogErr (Some e))]
  | None => logInfo "shutdown completed successfully" []
  end ;;;
  err <- runHooksAfterStop hookCtx ;;
  shutdownErr <-
    match err with
    | Some e =>
        logError "after stop hook failed" [("error", LogErr (Some e))] ;;;
        ret (errors_Join [shutdownErr; Some (Errorf "after stop hook: %w" [] e)])
    | None => ret shutdownErr
    end ;;
  (if 0 <? shutdownTimeout a then emit (EvCancel shutdownCtx) else ret tt) ;;;
  set_stopTime (timeStop o) ;;;
  set_isRunning false ;;;
  ret shutdownErr.

(** What a call of [Run] comes to: it returns an error (or nil), or it
    stays blocked in its [select]. *)
Inductive RunOutcome :=
| Returned (err : option error)
| Blocked.

(** [Run]. [defer cancel()] runs at every return after the context was
    derived. *)
Definition Run (o : Sched) (ctx : Ctx) : M RunOutcome :=
  a <- getApp ;;
  if isRunning a then ret (Returned (Some ErrApplicationAlreadyRunning))
  else
    set_isRunning true ;;;
    registry_lock ;;;
    let cancelCtx := WithCancel ctx in
    set_startTime (timeStart o) ;;;
    a <- getApp ;;
    let ctx := enrichContext (app_meta a) cancelCtx in
    emit (EvGo "setupSignalHandler") ;;;
    logInfo "initializing modules" [] ;;;
    err <- initAll ctx ;;
    match err with
    | Some e => emit (EvCancel cancelCtx) ;;; ret (Returned (Some e))
    | None =>
    err <- runHooksBeforeStart ctx ;;
    match err with
    | Some e =>
        emit (EvCancel cancelCtx) ;;;
        ret (Returned (Some (Errorf "before start hook: %w" [] e)))
    | None =>
    logInfo "starting modules" [] ;;;
    res <- startAll ctx ;;
    let startedModules := default [] (fst res) in
    match snd res with
    | Some e => emit (EvCancel cancelCtx) ;;; ret (Returned (Some e))
    | None =>
    err <- runHooksAfterStart ctx ;;
    match err with
    | Some e =>
        logError "after start hook failed, shutting down" [("error", LogErr (Some e))] ;;;
        shutdownErr <- shutdownModules Background startedModules ;;
        emit (EvCancel cancelCtx) ;;;
        ret (Returned (errors_Join [Some (Errorf "after start hook: %w" [] e); shutdownErr]))
    | None =>
    bgErrCh <- collectBackgroundErrors ;;
    logInfo "application started" [] ;;;
    let ch := run_tasks (bgTasks o) <$> bgErrCh in
    match select_pick (preferBg o) (select_ready (ctxDone o) ch) with
    | None => ret Blocked
    | Some CaseCtxDone =>
        logInfo "shutdown signal received" [] ;;;
        r <- shutdown o ;;
        emit (EvCancel cancelCtx) ;;;
        ret (Returned r)
    | Some CaseBgErr =>
        let bgErr := ch ≫= chan_recv in
        logError "background module failed" [("error", LogErr bgErr)] ;;;
        emit (EvCancel cancelCtx) ;;;
        r <- shutdown o ;;
        emit (EvCancel cancelCtx) ;;;
        ret (Returned r)
    end
    end end end end.





(** ** Uptime (meta.go)

    A [time.Duration] is a signed 64-bit count of nanoseconds;
    [Time.Sub] saturates at its bounds. *)
Definition minDuration : Z := - 2 ^ 63.
Definition maxDuration : Z := 2 ^ 63 - 1.
Definition Second : Z := 1000000000.

Definition Time_IsZero (t : Time) : bool := t =? zeroTime.

Definition Time_Sub (t u : Time) : Z :=
  Z.max minDuration (Z.min maxDuration (t - u)).

(** [uptime], [now] being what [time.Now()] reads. *)
Definition uptime (m : meta) (now : Time) : Z :=
  let end_ := stopTime m in
  let end_ := if Time_IsZero end_ then now else end_ in
  Time_Sub end_ (startTime m).

Definition Uptime (a : Application) (now : Time) : Z :=
  uptime (app_meta a) now.

(** ** Options (options.go) and [New]

    An option changes the application it is applied to, or fails and
    leaves it alone. The logger is not a field of the model (its calls
    are the [EvLog] events), so [WithLogger] has no counterpart here. *)
Definition Option := Application -> option error * Application.

Definition WithName (name : string) : Option :=
  fun a =>
    if decide (name = "") then (Some ErrAppNameEmpty, a)
    else
      let m := app_meta a in
      (None,
       mkApplication
         (mkMeta name (version m) (environment m) (startTime m) (stopTime m))
         (app_registry a) (hooks a) (isRunning a) (shutdownTimeout a)).

Definition WithVersion (version : string) : Option :=
  fun a =>
    let m := app_meta a in
    (None,
     mkApplication
       (mkMeta (name m) version (environment m) (startTime m) (stopTime m))
       (app_registry a) (hooks a) (isRunning a) (shutdownTimeout a)).

Definition WithEnvironment (environment : string) : Option :=
  fun a =>
    let m := app_meta a in
    (None,
     mkApplication
       (mkMeta (name m) (version m) environment (startTime m) (stopTime m))
       (app_registry a) (hooks a) (isRunning a) (shutdownTimeout a)).

Definition WithGracefulTimeout (timeout : Z) : Option :=
  fun a =>
    if timeout <? 0 then (Some ErrShutdownTimeoutNonPositive, a)
    else
      (None,
       mkApplication (app_meta a) (app_registry a) (hooks a) (isRunning a)
         timeout).

Definition WithHook (hook : Hook) : Option :=
  fun a =>
    (None,
     mkApplication (app_meta a) (app_registry a) (hooks a ++ [hook])
       (isRunning a) (shutdownTimeout a)).

(** The loop of [New] over the options. *)
Fixpoint New_range (opts : list Option) (a : Application)
  : error + Application :=
  match opts with
  | [] => inr a
  | opt :: rest =>
      match opt a with
      | (Some err, _) => inl (Errorf "apply option: %w" [] err)
      | (None, a') => New_range rest a'
      end
  end.

(** [New]: the application, or the error returned with a nil pointer. *)
Definition New (opts : list Option) : error + Application :=
  let reg := newRegistry in
  New_range opts
    (mkApplication (mkMeta "" "" "" zeroTime zeroTime) reg [] false
       (10 * Second)).

End Program.

Arguments Option : clear implicits.

(** ** Reading a trace *)

Inductive Phase := PInit | PStart | PStop.

Section Traces.

Context {W : Type}.

(** The calls of one lifecycle phase in a trace, in order: module,
    context passed, error returned. *)
Definition phase_call (p : Phase) (e : Event W)
  : option (AppModule W * Ctx * option error) :=
  match p, e with
  | PInit, EvInit m c r => Some (m, c, r)
  | PStart, EvStart m c r => Some (m, c, r)
  | PStop, EvStop m c r => Some (m, c, r)
  | _, _ => None
  end.

Definition phase_calls (p : Phase) (tr : list (Event W))
  : list (AppModule W * Ctx * option error) :=
  omap (phase_call p) tr.

Definition init_calls (tr : list (Event W)) : list (AppModule W) :=
  (fun c => c.1.1) <$> phase_calls PInit tr.

Definition start_calls (tr : list (Event W)) : list (AppModule W) :=
  (fun c => c.1.1) <$> phase_calls PStart tr.

Definition stop_calls (tr : list (Event W)) : list (AppModule W) :=
  (fun c => c.1.1) <$> phase_calls PStop tr.

(** The failed [Stop] calls of a trace, each wrapped with the name of its
    module as [shutdownModules] wraps it. *)
Definition stop_failure (c : AppModule W * Ctx * option error) : option error :=
  Errorf "stop module %q: %w" [Name c.1.1] <$> c.2.

Definition stop_failures (tr : list (Event W)) : list error :=
  omap stop_failure (phase_calls PStop tr).

(** The log messages of a trace at one level. *)
Definition logged (lvl : Level) (tr : list (Event W)) : list string :=
  omap (fun e => match e with
                 | EvLog l msg _ =>
                     match lvl, l with
                     | LevelInfo, LevelInfo | LevelError, LevelError => Some msg
                     | _, _ => None
                     end
                 | _ => None
                 end) tr.

(** The world after calling [Stop] on the given modules in order. *)
Definition world_after_stops (ctx : Ctx) (ms : list (AppModule W)) (w : W) : W :=
  foldl (fun w m => (Stop m ctx w).2) w ms.

(** A recorded call of [Stop] carries what the module's [Stop] returned
    in some world. *)
Definition genuine_stop (c : AppModule W * Ctx * option error) : Prop :=
  exists w, (Stop c.1.1 c.1.2 w).1 = c.2.

(** What a run of [Stop] calls leaves in the trace: the modules stopped in
    order, all with the same context, each with the result of its own
    [Stop], and no call of another phase. *)
Definition only_stops (ctx : Ctx) (ms : list (AppModule W))
    (evs : list (Event W)) : Prop :=
  stop_calls evs = ms /\
  Forall (fun c => c.1.2 = ctx) (phase_calls PStop evs) /\
  phase_calls PInit evs = [] /\
  phase_calls PStart evs = [] /\
  Forall genuine_stop (phase_calls PStop evs).

(** The goroutines a trace launches, in order. *)
Definition spawned (tr : list (Event W)) : list string :=
  omap (fun e => match e with EvGo g => Some g | _ => None end) tr.

(** A state after further events were recorded. *)
Definition record_events (s : State W) (evs : list (Event W)) : State W :=
  mkState (world s) (trace s ++ evs) (app s).

(** The state in which [Run] calls [initAll]: the run flag set, the
    registry locked, the start time stamped, the signal handler launched,
    and the context every phase call receives. *)
Definition entered (o : Sched) (s : State W) : State W :=
  let a := app s in
  let m := app_meta a in
  mkState (world s)
    ((trace s ++ [EvGo "setupSignalHandler"]) ++
     [EvLog LevelInfo "initializing modules" []])
    (mkApplication
       (mkMeta (name m) (version m) (environment m) (timeStart o) (stopTime m))
       (lock (app_registry a)) (hooks a) true (shutdownTimeout a)).

Definition runCtx (o : Sched) (ctx : Ctx) (s : State W) : Ctx :=
  enrichContext (app_meta (app (entered o s))) (WithCancel ctx).

(** The application record [shutdown] leaves: the stop time stamped and
    the run flag reset. *)
Definition stopped_app (t : Time) (a : Application W) : Application W :=
  let m := app_meta a in
  mkApplication
    (mkMeta (name m) (version m) (environment m) (startTime m) t)
    (app_registry a) (hooks a) false (shutdownTimeout a).

(** The events of a [shutdown] with graceful timeout [T], in order: the
    BeforeStop hooks [evs0] and the log of their error, the goroutine of
    the timed variant, the [Stop] calls [evs1], the log of the outcome
    [base], the AfterStop hooks [evs2] and the log of their error, and the
    deferred cancel of the timeout context. *)
Definition shutdown_events (T : Z) (before : option error)
    (evs0 : list (Event W)) (base : option error) (evs1 : list (Event W))
    (after : option error) (evs2 : list (Event W)) : list (Event W) :=
  evs0 ++
  match before with
  | Some e => [EvLog LevelError "before stop hook failed" [("error", LogErr (Some e))]]
  | None => []
  end ++
  (if 0 <? T then [EvGo "shutdownAll"] else []) ++
  evs1 ++
  [match base with
   | Some e => EvLog LevelError "shutdown completed with errors"
                 [("error", LogErr (Some e))]
   | None => EvLog LevelInfo "shutdown completed successfully" []
   end] ++
  evs2 ++
  match after with
  | Some e => [EvLog LevelError "after stop hook failed" [("error", LogErr (Some e))]]
  | None => []
  end ++
  (if 0 <? T then [EvCancel (WithTimeout Background T)] else []).




(** A reader goroutine that has not returned yet. *)
Definition unfinished (r : Reader) : bool :=
  match r_pc r with Finished => false | _ => true end.

Definition count_unfinished (rs : list Reader) : nat :=
  sum_list ((fun r => if unfinished r then 1%nat else 0%nat) <$> rs).

(** The invariant of the fan-in: the wait-group counter counts the readers
    that have not returned, and [merged] is closed only at counter zero. *)
Definition fanin_inv (a : FanIn) : Prop :=
  wg a = count_unfinished (readers a) /\
  (closed a = true -> wg a = 0%nat).

(** A module's error channel that never delivers a non-nil error. *)
Definition clean_chan (c : Recv) : bool :=
  match c with RecvValue (Some _) => false | _ => true end.

(** The calls of one phase all return nil, one after the other, taking
    the world from [w] to [w']. *)
Inductive calls_succeed (f : AppModule W -> Call W) (ctx : Ctx)
  : list (AppModule W) -> W -> W -> Prop :=
| calls_succeed_nil w : calls_succeed f ctx [] w w
| calls_succeed_cons m ms w w1 w2 :
    f m ctx w = (None, w1) ->
    calls_succeed f ctx ms w1 w2 ->
    calls_succeed f ctx (m :: ms) w w2.

(** The registry invariant: the name set is the set of the modules'
    names, no name is empty, and no two modules share one. *)
Definition registry_wf (r : registry W) : Prop :=
  names r = list_to_set (Name <$> modules r) /\
  NoDup (Name <$> modules r) /\
  "" ∉ (Name <$> modules r).

(** The registries a program can build: [newRegistry], then [register]
    and [lock]. *)
Inductive registry_reachable : registry W -> Prop :=
| reach_new : registry_reachable newRegistry
| reach_register r m :
    registry_reachable r -> registry_reachable (register r m).2
| reach_lock r :
    registry_reachable r -> registry_reachable (lock r).

(** The hook callbacks a trace ran, in order: kind, context passed, error
    returned. *)
Definition hook_calls (tr : list (Event W))
  : list (HookKind * Ctx * option error) :=
  omap (fun e => match e with
                 | EvHook k c r => Some (k, c, r)
                 | _ => None
                 end) tr.

(** The ways the start-up of [Run] fails, each with the error [Run]
    returns and the state it leaves: a failed [Init], a failed BeforeStart
    hook, a failed [Start] (rolled back inside [startAll]), a failed
    AfterStart hook (rolled back by [Run]). *)
Inductive startup_fails (o : Sched) (ctx : Ctx) (s : State W)
  : option error -> State W -> Prop :=
| fails_initAll e s2 :
    initAll (runCtx o ctx s) (entered o s) = (Some e, s2) ->
    startup_fails o ctx s (Some e)
      (record_events s2 [EvCancel (WithCancel ctx)])
| fails_beforeStart s2 e s3 :
    initAll (runCtx o ctx s) (entered o s) = (None, s2) ->
    runHooksBeforeStart (runCtx o ctx s) s2 = (Some e, s3) ->
    startup_fails o ctx s (Some (Errorf "before start hook: %w" [] e))
      (record_events s3 [EvCancel (WithCancel ctx)])
| fails_startAll s2 s3 l e s4 :
    initAll (runCtx o ctx s) (entered o s) = (None, s2) ->
    runHooksBeforeStart (runCtx o ctx s) s2 = (None, s3) ->
    startAll (runCtx o ctx s)
      (record_events s3 [EvLog LevelInfo "starting modules" []]) =
      ((l, Some e), s4) ->
    startup_fails o ctx s (Some e)
      (record_events s4 [EvCancel (WithCancel ctx)])
| fails_afterStart s2 s3 l s4 e s5 r s6 :
    initAll (runCtx o ctx s) (entered o s) = (None, s2) ->
    runHooksBeforeStart (runCtx o ctx s) s2 = (None, s3) ->
    startAll (runCtx o ctx s)
      (record_events s3 [EvLog LevelInfo "starting modules" []]) =
      ((l, None), s4) ->
    runHooksAfterStart (runCtx o ctx s) s4 = (Some e, s5) ->
    shutdownModules Background (default [] l)
      (record_events s5
         [EvLog LevelError "after start hook failed, shutting down"
            [("error", LogErr (Some e))]]) = (r, s6) ->
    startup_fails o ctx s
      (errors_Join [Some (Errorf "after start hook: %w" [] e); r])
      (record_events s6 [EvCancel (WithCancel ctx)]).

(** The start-up of [Run] succeeds and leaves state [s5]: [initAll], the
    BeforeStart hooks, [startAll] and the AfterStart hooks all return
    nil. *)
Definition started_up (o : Sched) (ctx : Ctx) (s s5 : State W) : Prop :=
  exists s2 s3 l s4,
    initAll (runCtx o ctx s) (entered o s) = (None, s2) /\
    runHooksBeforeStart (runCtx o ctx s) s2 = (None, s3) /\
    startAll (runCtx o ctx s)
      (record_events s3 [EvLog LevelInfo "starting modules" []]) =
      ((l, None), s4) /\
    runHooksAfterStart (runCtx o ctx s) s4 = (None, s5).

(** Registering a batch of modules one after the other, the errors
    dropped. *)
Definition register_all (r : registry W) (ms : list (AppModule W))
  : registry W :=
  foldl (fun r m => (register r m).2) r ms.

(** The options the package exports. *)
Inductive pkg_option : Option W -> Prop :=
| pkg_WithName n : pkg_option (WithName n)
| pkg_WithVersion v : pkg_option (WithVersion v)
| pkg_WithEnvironment e : pkg_option (WithEnvironment e)
| pkg_WithGracefulTimeout t : pkg_option (WithGracefulTimeout t)
| pkg_WithHook h : pkg_option (WithHook h).


(** A reader goroutine that may still send on [merged]. *)
Definition may_send (r : Reader) : bool :=
  match r_pc r with AtRecv | AtSend _ => true | _ => false end.

Definition count_may_send (rs : list Reader) : nat :=
  sum_list ((fun r => if may_send r then 1%nat else 0%nat) <$> rs).

(** The error reader [r] sends on [merged], if it sends one: the value
    received from the module's channel, when it is not nil, wrapped with
    the module's name. *)
Definition reader_error (r : Reader) : option error :=
  match r_chan r with
  | RecvValue (Some e) =>
      Some (Errorf "background module %q: %w" [r_name r] e)
  | _ => None
  end.

(** The buffer of [merged] has room for every reader that may still
    send. *)
Definition fanin_buffer_inv (a : FanIn) : Prop :=
  (length (merged a) + count_may_send (readers a) <= capacity a)%nat.

(** Relative to the fan-in [a0] it started from: the readers of [a] are
    those of [a0] further along, a reader about to send holds its own
    wrapped error, and [merged] holds only such errors. *)
Definition fanin_origin_inv (a0 a : FanIn) : Prop :=
  reader_error <$> readers a = reader_error <$> readers a0 /\
  Forall (fun r => forall e, r_pc r = AtSend e -> reader_error r = Some e)
    (readers a) /\
  Forall (fun e => Some e ∈ reader_error <$> readers a0) (merged a).

(** What the fields no option touches look like, and the bound every
    accepted timeout respects. *)
Definition fresh_application (a : Application W) : Prop :=
  app_registry a = newRegistry /\
  isRunning a = false /\
  startTime (app_meta a) = zeroTime /\
  stopTime (app_meta a) = zeroTime /\
  0 <= shutdownTimeout a.

(** An option of the package that fails: an empty name, or a negative
    graceful timeout. *)
Definition rejected (opt : Option W) (e : error) : Prop :=
  (opt = WithName "" /\ e = ErrAppNameEmpty) \/
  (exists t, t < 0 /\ opt = WithGracefulTimeout t /\
             e = ErrShutdownTimeoutNonPositive).

(** The hooks' callbacks of one kind all return nil, one after the
    other, taking the world from [w] to [w']; a hook without the callback
    is skipped. *)
Inductive hooks_succeed (sel : Hook W -> option (Call W)) (ctx : Ctx)
  : list (Hook W) -> W -> W -> Prop :=
| hooks_succeed_nil w : hooks_succeed sel ctx [] w w
| hooks_succeed_skip h hs w w' :
    sel h = None ->
    hooks_succeed sel ctx hs w w' ->
    hooks_succeed sel ctx (h :: hs) w w'
| hooks_succeed_call h hs f w w1 w' :
    sel h = Some f ->
    f ctx w = (None, w1) ->
    hooks_succeed sel ctx hs w1 w' ->
    hooks_succeed sel ctx (h :: hs) w w'.

(** The modules whose [Start] a trace records as having returned nil. *)
Definition started_ok (tr : list (Event W)) : list (AppModule W) :=
  omap (fun c : AppModule W * Ctx * option error =>
          match c.2 with None => Some c.1.1 | Some _ => None end)
    (phase_calls PStart tr).

(** All the lifecycle calls of a trace, in order: phase and module. *)
Definition lifecycle_calls (tr : list (Event W)) : list (Phase * AppModule W) :=
  omap (fun e => match e with
                 | EvInit m _ _ => Some (PInit, m)
                 | EvStart m _ _ => Some (PStart, m)
                 | EvStop m _ _ => Some (PStop, m)
                 | _ => None
                 end) tr.

(** A trace in lifecycle order: all its [Init] calls, then all its [Start]
    calls, then all its [Stop] calls. *)
Definition in_lifecycle_order (tr : list (Event W)) : Prop :=
  lifecycle_calls tr =
    (pair PInit <$> init_calls tr) ++
    (pair PStart <$> start_calls tr) ++
    (pair PStop <$> stop_calls tr).

(** The lifecycle discipline of a trace over the registered modules
    [ms]: [Init] and [Start] calls carry the run context [c] and follow
    the registration order; no module is started before all are
    initialised; [Stop] calls carry a context of their own (the background
    context, or one with the graceful timeout [T]) and go through the
    modules whose [Start] returned nil, last started first; and all [Init]
    calls come before all [Start] calls, all [Start] calls before all
    [Stop] calls. *)
Definition lifecycle_discipline (c : Ctx) (ms : list (AppModule W)) (T : Z)
    (tr : list (Event W)) : Prop :=
  Forall (fun x => x.1.2 = c) (phase_calls PInit tr) /\
  Forall (fun x => x.1.2 = c) (phase_calls PStart tr) /\
  Forall (fun x => x.1.2 = Background \/ x.1.2 = WithTimeout Background T)
    (phase_calls PStop tr) /\
  init_calls tr `prefix_of` ms /\
  start_calls tr `prefix_of` ms /\
  (start_calls tr <> [] -> init_calls tr = ms) /\
  stop_calls tr `prefix_of` reverse (started_ok tr) /\
  in_lifecycle_order tr.

(** The schedule that runs the readers one after the other, each through
    its receive, its send and its [wg.Done()], and then the closer. *)
Definition one_by_one (n : nat) : list Task :=
  flat_map (fun i => [TReader i; TReader i; TReader i]) (seq 0 n) ++ [TCloser].

(** A reader that has returned. *)
Definition finished (r : Reader) : Reader := set_pc r Finished.

End Traces.

(** ** A sample application

    User code over a journal: every lifecycle call appends its tag to the
    journal and returns a fixed result. *)

Definition journal := list string.

Definition noting (tag : string) (r : option error) : Call journal :=
  fun _ w => (r, w ++ [tag]).

Definition sample (n : string) (initR startR stopR : option error)
    (ch : option Recv) : AppModule journal :=
  mkModule n
    (noting (String.append n ".Init") initR)
    (noting (String.append n ".Start") startR)
    (noting (String.append n ".Stop") stopR)
    ((fun c (_ : journal) => c) <$> ch)
    None.

Definition db := sample "db" None None None None.

Definition cache :=
  sample "cache" None None (Some (External "flush failed")) None.

Definition http :=
  sample "http" None (Some (External "address already in use")) None None.

Definition broken :=
  sample "broken" (Some (External "connection refused")) None None None.

Definition worker := sample "worker" None None None (Some RecvClosed).

Definition sampleRegistry (ms : list (AppModule journal)) : registry journal :=
  mkRegistry ms (list_to_set (Name <$> ms)) false.

Definition sampleApp (ms : list (AppModule journal)) (hs : list (Hook journal))
    (timeout : Z) : Application journal :=
  mkApplication (mkMeta "demo" "1.0.0" "test" 0 0) (sampleRegistry ms) hs
    false timeout.

Definition sampleState (ms : list (AppModule journal))
    (hs : list (Hook journal)) (timeout : Z) : State journal :=
  mkState [] [] (sampleApp ms hs timeout).

Definition notReady : Hook journal :=
  mkHook (Some (noting "hook.BeforeStart" (Some (External "not ready"))))
    None None None.

Definition warmupFails : Hook journal :=
  mkHook None (Some (noting "hook.AfterStart" (Some (External "warmup failed"))))
    None None.

(** A background module whose channel delivers an error. *)
Definition crasher :=
  sample "crasher" None None None
    (Some (RecvValue (Some (External "connection lost")))).

Definition drainFails : Hook journal :=
  mkHook None None
    (Some (noting "hook.BeforeStop" (Some (External "drain failed")))) None.


(** A module with the [HealthChecker] capability. *)
Definition checked (n : string) (healthR : option error) : AppModule journal :=
  mkModule n
    (noting (String.append n ".Init") None)
    (noting (String.append n ".Start") None)
    (noting (String.append n ".Stop") None)
    None
    (Some (noting (String.append n ".Health") healthR)).

(** * Properties *)

(** ** Context accessors *)

Lemma Value_not_enriched (ctx : Ctx) (k : ctxKey) :
  enriched ctx = false -> isAppKey k = true -> Value ctx k = None.
Proof.
  intros Hctx Hk.
  induction ctx as [|parent IH k' v|parent IH|parent IH d]; simpl in *; auto.
  apply orb_false_iff in Hctx as [Hk' Hp].
  destruct (decide (k' = k)) as [->|_]; [congruence | auto].
Qed.

(** C10: on a context that was never enriched with application metadata
    the accessors return zero values: the empty string for name, version
    and environment, the zero time for the start time. *)
Theorem accessors_zero_on_plain_context (ctx : Ctx) :
  enriched ctx = false ->
  NameFromContext ctx = "" /\
  VersionFromContext ctx = "" /\
  EnvironmentFromContext ctx = "" /\
  StartTimeFromContext ctx = zeroTime.
Proof.
  intros H.
  unfold NameFromContext, VersionFromContext, EnvironmentFromContext,
    StartTimeFromContext.
  rewrite !(Value_not_enriched ctx) by done.
  done.
Qed.

Lemma accessors_zero_on_plain_context_witness :
  let ctx := WithTimeout (WithValue (WithCancel Background)
                            (foreignKey "request-id") (AnyString "42")) 5 in
  enriched ctx = false /\
  NameFromContext ctx = "" /\
  VersionFromContext ctx = "" /\
  EnvironmentFromContext ctx = "" /\
  StartTimeFromContext ctx = zeroTime.
Proof.
  split; [reflexivity | apply accessors_zero_on_plain_context; reflexivity].
Defined.

(** The accessors read back what [enrichContext] stored. *)
Lemma accessors_after_enrichContext (m : meta) (ctx : Ctx) :
  NameFromContext (enrichContext m ctx) = name m /\
  VersionFromContext (enrichContext m ctx) = version m /\
  EnvironmentFromContext (enrichContext m ctx) = environment m /\
  StartTimeFromContext (enrichContext m ctx) = startTime m.
Proof. done. Qed.

(** ** The registry *)

Section RegistryProperties.

Context {W : Type}.

Implicit Types (r : registry W) (m : AppModule W).

Lemma registry_wf_names r m :
  registry_wf r -> Name m ∈ names r <-> Name m ∈ (Name <$> getAll r).
Proof.
  intros [Hn _]. unfold getAll. rewrite Hn. apply elem_of_list_to_set.
Qed.

Lemma register_locked r m :
  locked r = true -> register r m = (Some ErrRegistrationClosed, r).
Proof. intros H. unfold register. by rewrite H. Qed.

Lemma register_after_lock r m :
  register (lock r) m = (Some ErrRegistrationClosed, lock r).
Proof. done. Qed.

Lemma register_empty_name r m :
  locked r = false -> Name m = "" -> register r m = (Some ErrModuleNameEmpty, r).
Proof.
  intros Hl Hn. unfold register. rewrite Hl.
  destruct (decide (Name m = "")); [done | contradiction].
Qed.

Lemma register_duplicate r m :
  locked r = false -> Name m <> "" -> Name m ∈ names r ->
  register r m =
    (Some (Errorf "%w: %s" [Name m] ErrModuleAlreadyRegistered), r).
Proof.
  intros Hl Hn Hin. unfold register. rewrite Hl.
  destruct (decide (Name m = "")); [contradiction |].
  destruct (decide (Name m ∈ names r)); [done | contradiction].
Qed.

Lemma register_fresh r m :
  locked r = false -> Name m <> "" -> Name m ∉ names r ->
  register r m =
    (None, mkRegistry (modules r ++ [m]) ({[Name m]} ∪ names r) false).
Proof.
  intros Hl Hn Hin. unfold register. rewrite Hl.
  destruct (decide (Name m = "")); [contradiction |].
  destruct (decide (Name m ∈ names r)); [contradiction | done].
Qed.

Lemma register_preserves_wf r m :
  registry_wf r -> registry_wf (register r m).2.
Proof.
  intros Hwf. pose proof Hwf as (Hn & Hnd & Hne).
  unfold register.
  destruct (locked r); [done |].
  destruct (decide (Name m = "")); [done |].
  destruct (decide (Name m ∈ names r)) as [|Hfresh]; [done |].
  simpl. unfold registry_wf; simpl.
  rewrite fmap_app. simpl. split_and!.
  - rewrite list_to_set_app_L, Hn. simpl.
    rewrite (right_id_L ∅ (∪)). apply (comm_L (∪)).
  - apply NoDup_app. split_and!; [done | | apply NoDup_singleton].
    intros x Hx ->%list_elem_of_singleton. apply Hfresh.
    rewrite Hn. by apply elem_of_list_to_set.
  - rewrite elem_of_app, list_elem_of_singleton. intros [?|?]; [done | congruence].
Qed.

Lemma reachable_wf r : registry_reachable r -> registry_wf r.
Proof.
  induction 1 as [|r m _ IH|r _ IH].
  - unfold registry_wf; simpl. split_and!; [done | constructor | set_solver].
  - by apply register_preserves_wf.
  - exact IH.
Qed.

(** C6: on every registry state, [register] fails with
    [RegistrationClosed] when the registry is locked (in particular after
    [lock]); otherwise with [NameEmpty] when the module's name is empty;
    otherwise with [DuplicateName] when the name is already registered,
    the snapshot staying as it was and free of duplicates; otherwise it
    succeeds and the snapshot is the old one with the module appended. *)
Theorem register_spec r m :
  registry_reachable r ->
  register (lock r) m = (Some ErrRegistrationClosed, lock r) /\
  (locked r = true -> register r m = (Some ErrRegistrationClosed, r)) /\
  (locked r = false -> Name m = "" ->
     register r m = (Some ErrModuleNameEmpty, r)) /\
  (locked r = false -> Name m <> "" -> Name m ∈ (Name <$> getAll r) ->
     exists e,
       register r m = (Some e, r) /\
       errors_Is e ErrModuleAlreadyRegistered = true /\
       errors_Is e ErrRegistrationClosed = false /\
       errors_Is e ErrModuleNameEmpty = false /\
       NoDup (Name <$> getAll (register r m).2)) /\
  (locked r = false -> Name m <> "" -> Name m ∉ (Name <$> getAll r) ->
     exists r',
       register r m = (None, r') /\
       getAll r' = (getAll r ++ [m]) /\
       locked r' = false /\
       NoDup (Name <$> getAll r')).
Proof.
  intros Hwf%reachable_wf. split_and!.
  - apply register_after_lock.
  - apply register_locked.
  - apply register_empty_name.
  - intros Hl Hn Hin%(registry_wf_names r m Hwf).
    eexists. rewrite (register_duplicate r m Hl Hn Hin). simpl.
    split_and!; try done. apply Hwf.
  - intros Hl Hn Hin.
    assert (Name m ∉ names r) as Hfresh
      by (by rewrite (registry_wf_names r m Hwf)).
    pose proof (register_preserves_wf r m Hwf) as Hwf'.
    rewrite (register_fresh r m Hl Hn Hfresh) in Hwf' |- *.
    eexists. split_and!; try done. apply Hwf'.
Qed.

End RegistryProperties.

Lemma register_spec_witness :
  let r := (register (register newRegistry db).2 cache).2 in
  registry_reachable r /\
  getAll r = [db; cache] /\
  register (lock r) http = (Some ErrRegistrationClosed, lock r).
Proof.
  split_and!.
  - do 2 apply reach_register. apply reach_new.
  - reflexivity.
  - apply (register_spec (register (register newRegistry db).2 cache).2 http).
    do 2 apply reach_register. apply reach_new.
Defined.

(** ** The runner *)

Section RunnerProperties.

Context {W : Type}.

Implicit Types (m : AppModule W) (ms : list (AppModule W)) (s : State W)
  (evs : list (Event W)).

Lemma phase_calls_app p evs1 evs2 :
  phase_calls p (evs1 ++ evs2) = (phase_calls p evs1 ++ phase_calls p evs2).
Proof. apply omap_app. Qed.

Lemma stop_calls_app evs1 evs2 :
  stop_calls (evs1 ++ evs2) = (stop_calls evs1 ++ stop_calls evs2).
Proof. unfold stop_calls. by rewrite phase_calls_app, fmap_app. Qed.

Lemma start_calls_app evs1 evs2 :
  start_calls (evs1 ++ evs2) = (start_calls evs1 ++ start_calls evs2).
Proof. unfold start_calls. by rewrite phase_calls_app, fmap_app. Qed.

Lemma init_calls_app evs1 evs2 :
  init_calls (evs1 ++ evs2) = (init_calls evs1 ++ init_calls evs2).
Proof. unfold init_calls. by rewrite phase_calls_app, fmap_app. Qed.

Lemma stop_failures_app evs1 evs2 :
  stop_failures (evs1 ++ evs2) = (stop_failures evs1 ++ stop_failures evs2).
Proof. unfold stop_failures. by rewrite phase_calls_app, omap_app. Qed.

Lemma only_stops_cons ctx m ms evs0 evs :
  stop_calls evs0 = [m] ->
  Forall (fun c => c.1.2 = ctx) (phase_calls PStop evs0) ->
  phase_calls PInit evs0 = [] ->
  phase_calls PStart evs0 = [] ->
  Forall genuine_stop (phase_calls PStop evs0) ->
  only_stops ctx ms evs ->
  only_stops ctx (m :: ms) (evs0 ++ evs).
Proof.
  intros H1 H2 H3 H4 H4' (H5 & H6 & H7 & H8 & H9). unfold only_stops.
  rewrite stop_calls_app, !phase_calls_app, H1, H3, H4, H5, H7, H8.
  split_and!; try done; by apply Forall_app.
Qed.

(** The loop of [shutdownModules] with [n] iterations left stops the
    modules at positions [n-1] down to [0], whatever the calls return,
    and appends one wrapped error per failed call. *)
Lemma shutdownModules_loop_spec ctx ms n :
  forall errs s,
    (n <= length ms)%nat ->
    exists evs,
      shutdownModules_loop ctx ms n errs s =
        ((errs ++ stop_failures evs),
         mkState (world_after_stops ctx (reverse (take n ms)) (world s))
                 (trace s ++ evs) (app s)) /\
      only_stops ctx (reverse (take n ms)) evs.
Proof.
  induction n as [|i IH]; intros errs s Hn.
  - exists []. simpl. rewrite !app_nil_r. split; [by destruct s |].
    repeat split; constructor.
  - destruct (lookup_lt_is_Some_2 ms i ltac:(lia)) as [m Hm].
    rewrite (take_S_r _ _ _ Hm), reverse_snoc.
    simpl. rewrite Hm.
    unfold bind, logInfo, logError, emit, callStop, call. simpl.
    destruct (Stop m ctx (world s)) as [[e|] w1] eqn:HStop; simpl.
    + edestruct (IH (errs ++ [Errorf "stop module %q: %w" [Name m] e])
                   (mkState w1 (((trace s ++ [EvLog LevelInfo "stopping module"
                                     [("module", LogString (Name m))]]) ++
                                  [EvStop m ctx (Some e)]) ++
                                 [EvLog LevelError "failed to stop module"
                                    [("module", LogString (Name m));
                                     ("error", LogErr (Some e))]])
                            (app s))) as (evs & Heq & Hevs); [lia |].
      exists ([EvLog LevelInfo "stopping module" [("module", LogString (Name m))];
               EvStop m ctx (Some e);
               EvLog LevelError "failed to stop module"
                 [("module", LogString (Name m)); ("error", LogErr (Some e))]]
              ++ evs).
      split.
      * rewrite Heq, stop_failures_app. simpl.
        unfold world_after_stops. simpl.
        by rewrite <- !app_assoc.
      * apply only_stops_cons; [done | by repeat constructor | done | done | | exact Hevs].
        repeat constructor. exists (world s). simpl. by rewrite HStop.
    + edestruct (IH errs
                   (mkState w1 ((trace s ++ [EvLog LevelInfo "stopping module"
                                    [("module", LogString (Name m))]]) ++
                                 [EvStop m ctx None])
                            (app s))) as (evs & Heq & Hevs); [lia |].
      exists ([EvLog LevelInfo "stopping module" [("module", LogString (Name m))];
               EvStop m ctx None] ++ evs).
      split.
      * rewrite Heq, stop_failures_app. simpl.
        unfold world_after_stops. simpl.
        by rewrite <- !app_assoc.
      * apply only_stops_cons; [done | by repeat constructor | done | done | | exact Hevs].
        repeat constructor. exists (world s). simpl. by rewrite HStop.
Qed.

Lemma shutdownModules_spec ctx ms s :
  exists evs,
    shutdownModules ctx ms s =
      (errors_Join (Some <$> stop_failures evs),
       mkState (world_after_stops ctx (reverse ms) (world s))
               (trace s ++ evs) (app s)) /\
    only_stops ctx (reverse ms) evs.
Proof.
  destruct (shutdownModules_loop_spec ctx ms (length ms) [] s) as (evs & Heq & H);
    [done |].
  rewrite firstn_all in Heq, H.
  exists evs. split; [| done].
  unfold shutdownModules, bind. by rewrite Heq.
Qed.

Lemma errors_Join_Some (es : list error) :
  errors_Join (Some <$> es) = match es with [] => None | _ => Some (Join es) end.
Proof.
  unfold errors_Join.
  assert (omap id (Some <$> es) = es) as ->; [| by destruct es].
  induction es as [|e es IH]; [done | csimpl; by f_equal].
Qed.




(** A phase that succeeds on every module of a list. *)
Lemma initAll_range_ok ctx ms w w' :
  calls_succeed Init ctx ms w w' ->
  forall s, world s = w ->
    exists evs,
      initAll_range ctx ms s = (None, mkState w' (trace s ++ evs) (app s)) /\
      init_calls evs = ms /\
      phase_calls PStart evs = [] /\
      phase_calls PStop evs = [].
Proof.
  induction 1 as [w|m ms w w1 w2 Hm _ IH]; intros s Hs.
  - exists []. simpl. rewrite app_nil_r. unfold ret. by destruct s; simplify_eq/=.
  - simpl. unfold bind, logInfo, emit, callInit, call. simpl.
    rewrite Hs, Hm.
    edestruct (IH (mkState w1 ((trace s ++ [EvLog LevelInfo "initializing module"
                                   [("module", LogString (Name m))]]) ++
                               [EvInit m ctx None]) (app s)))
      as (evs & Heq & Hi & Hst & Hsp); [done |].
    exists ([EvLog LevelInfo "initializing module" [("module", LogString (Name m))];
             EvInit m ctx None] ++ evs).
    rewrite Heq, init_calls_app, !phase_calls_app, Hi, Hst, Hsp. simpl.
    by rewrite <- !app_assoc.
Qed.



Lemma startAll_range_ok ctx ms w w' :
  calls_succeed Start ctx ms w w' ->
  forall started s, world s = w ->
    exists evs,
      startAll_range ctx ms started s =
        ((Some (started ++ ms), None), mkState w' (trace s ++ evs) (app s)) /\
      start_calls evs = ms /\
      phase_calls PInit evs = [] /\
      phase_calls PStop evs = [].
Proof.
  induction 1 as [w|m ms w w1 w2 Hm _ IH]; intros started s Hs.
  - exists []. simpl. rewrite !app_nil_r. unfold ret. by destruct s; simplify_eq/=.
  - simpl. unfold bind, logInfo, emit, callStart, call. simpl.
    rewrite Hs, Hm.
    edestruct (IH (started ++ [m])
                 (mkState w1 ((trace s ++ [EvLog LevelInfo "starting module"
                                  [("module", LogString (Name m))]]) ++
                              [EvStart m ctx None]) (app s)))
      as (evs & Heq & Hst & Hi & Hsp); [done |].
    exists ([EvLog LevelInfo "starting module" [("module", LogString (Name m))];
             EvStart m ctx None] ++ evs).
    rewrite Heq, start_calls_app, !phase_calls_app, Hi, Hst, Hsp. simpl.
    by rewrite <- !app_assoc.
Qed.



End RunnerProperties.



(** ** The application *)

Section ApplicationProperties.

Context {W : Type}.

Implicit Types (m : AppModule W) (ms : list (AppModule W)) (s : State W)
  (evs : list (Event W)) (o : Sched).

Lemma Run_already_running o ctx s :
  isRunning (app s) = true ->
  Run o ctx s = (Returned (Some ErrApplicationAlreadyRunning), s).
Proof. intros H. unfold Run, bind, getApp. by rewrite H. Qed.

Lemma Run_init_fails o ctx s e s2 :
  isRunning (app s) = false ->
  initAll (runCtx o ctx s) (entered o s) = (Some e, s2) ->
  Run o ctx s =
    (Returned (Some e),
     mkState (world s2) (trace s2 ++ [EvCancel (WithCancel ctx)]) (app s2)).
Proof.
  intros Hrun Hinit.
  unfold Run, bind, getApp. rewrite Hrun.
  unfold set_isRunning, registry_lock, set_startTime, bind, getApp, setApp,
    logInfo, emit, ret. cbn [fst snd app world trace app_meta app_registry hooks
    isRunning shutdownTimeout].
  change (initAll _ _) with (initAll (runCtx o ctx s) (entered o s)).
  by rewrite Hinit.
Qed.

(** The runner and the hooks never touch the application record. *)
Lemma initAll_range_app ctx ms s : app (initAll_range ctx ms s).2 = app s.
Proof.
  revert s. induction ms as [|m ms IH]; intros s; [done |].
  simpl. unfold bind, logInfo, emit, callInit, call. simpl.
  destruct (Init m ctx (world s)) as [[e|] w]; [done |].
  by rewrite IH.
Qed.

Lemma initAll_app ctx s : app (initAll ctx s).2 = app s.
Proof. unfold initAll, bind, registry_getAll. apply initAll_range_app. Qed.

Lemma shutdownModules_app ctx ms s : app (shutdownModules ctx ms s).2 = app s.
Proof. destruct (shutdownModules_spec ctx ms s) as (evs & -> & _). done. Qed.

Lemma startAll_range_app ctx ms started s :
  app (startAll_range ctx ms started s).2 = app s.
Proof.
  revert started s. induction ms as [|m ms IH]; intros started s; [done |].
  simpl. unfold bind, logInfo, emit, callStart, call. simpl.
  destruct (Start m ctx (world s)) as [[e|] w].
  - match goal with |- context [shutdownModules ?c ?l ?st] =>
      pose proof (shutdownModules_app c l st) as H;
      destruct (shutdownModules c l st) as [r s'] end.
    exact H.
  - by rewrite IH.
Qed.

Lemma startAll_app ctx s : app (startAll ctx s).2 = app s.
Proof. unfold startAll, bind, registry_getAll. apply startAll_range_app. Qed.

Lemma startAll_range_started ctx ms started s l :
  (startAll_range ctx ms started s).1.1 = Some l -> l = started ++ ms.
Proof.
  revert started s. induction ms as [|m ms IH]; intros started s.
  - simpl. rewrite app_nil_r. by intros [= ->].
  - simpl. unfold bind, logInfo, emit, callStart, call. simpl.
    destruct (Start m ctx (world s)) as [[e|] w].
    + match goal with |- context [shutdownModules ?c ?l ?st] =>
        destruct (shutdownModules c l st) as [r s'] end. done.
    + intros H%IH. by rewrite H, <- app_assoc.
Qed.

(** What a run of hooks of one kind does: it emits no lifecycle call,
    leaves the application record alone, and an error it returns is the
    error of one of the selected callbacks. *)
Lemma runHooks_range_spec k sel ctx hs s :
  exists r evs w',
    runHooks_range k sel ctx hs s = (r, mkState w' (trace s ++ evs) (app s)) /\
    (forall p, phase_calls p evs = []) /\
    (forall e, r = Some e ->
       exists h f w, h ∈ hs /\ sel h = Some f /\ (f ctx w).1 = Some e).
Proof.
  revert s. induction hs as [|h hs IH]; intros s.
  - exists None, [], (world s). simpl. rewrite app_nil_r.
    split_and!; [by destruct s | done | done].
  - simpl. destruct (sel h) as [f|] eqn:Hsel.
    + unfold bind, call. simpl.
      destruct (f ctx (world s)) as [[e|] w1] eqn:Hf.
      * exists (Some e), [EvHook k ctx (Some e)], w1.
        split_and!; [done | by intros [] |].
        intros e' [= <-]. exists h, f, (world s).
        rewrite Hf. split_and!; [left | done | done].
      * destruct (IH (mkState w1 (trace s ++ [EvHook k ctx None]) (app s)))
          as (r & evs & w' & Heq & Hq & Hr).
        exists r, ([EvHook k ctx None] ++ evs), w'.
        rewrite Heq. simpl. rewrite <- app_assoc.
        split_and!; [done | |].
        -- intros p. destruct p; exact (Hq _).
        -- intros e He. destruct (Hr e He) as (h' & f' & w & ? & ? & ?).
           exists h', f', w. split_and!; [by right | done | done].
    + destruct (IH s) as (r & evs & w' & Heq & Hq & Hr).
      exists r, evs, w'. split_and!; [done | done |].
      intros e He. destruct (Hr e He) as (h' & f' & w & ? & ? & ?).
      exists h', f', w. split_and!; [by right | done | done].
Qed.

Lemma runHooks_range_app k sel ctx hs s :
  app (runHooks_range k sel ctx hs s).2 = app s.
Proof.
  destruct (runHooks_range_spec k sel ctx hs s) as (r & evs & w' & -> & _). done.
Qed.

Ltac enter_Run Hrun :=
  unfold Run, bind, getApp; rewrite Hrun;
  unfold set_isRunning, registry_lock, set_startTime, bind, getApp, setApp,
    logInfo, logError, emit, ret;
  cbn [fst snd app world trace app_meta app_registry hooks isRunning
       shutdownTimeout].

Ltac run_phase f o ctx s st H :=
  change (f _ _) with (f (runCtx o ctx s) st);
  rewrite H; cbv beta iota zeta;
  cbn [fst snd app world trace app_meta app_registry hooks isRunning
       shutdownTimeout].

Lemma Run_beforeStart_fails o ctx s s2 e s3 :
  isRunning (app s) = false ->
  initAll (runCtx o ctx s) (entered o s) = (None, s2) ->
  runHooksBeforeStart (runCtx o ctx s) s2 = (Some e, s3) ->
  Run o ctx s =
    (Returned (Some (Errorf "before start hook: %w" [] e)),
     record_events s3 [EvCancel (WithCancel ctx)]).
Proof.
  intros Hrun Hinit Hbefore. enter_Run Hrun.
  run_phase (@initAll W) o ctx s (entered o s) Hinit.
  run_phase (@runHooksBeforeStart W) o ctx s s2 Hbefore.
  done.
Qed.

Lemma Run_startAll_fails o ctx s s2 s3 l e s4 :
  isRunning (app s) = false ->
  initAll (runCtx o ctx s) (entered o s) = (None, s2) ->
  runHooksBeforeStart (runCtx o ctx s) s2 = (None, s3) ->
  startAll (runCtx o ctx s)
    (record_events s3 [EvLog LevelInfo "starting modules" []]) =
    ((l, Some e), s4) ->
  Run o ctx s =
    (Returned (Some e), record_events s4 [EvCancel (WithCancel ctx)]).
Proof.
  intros Hrun Hinit Hbefore Hstart. enter_Run Hrun.
  run_phase (@initAll W) o ctx s (entered o s) Hinit.
  run_phase (@runHooksBeforeStart W) o ctx s s2 Hbefore.
  run_phase (@startAll W) o ctx s
    (record_events s3 [EvLog LevelInfo "starting modules" []]) Hstart.
  done.
Qed.

(** C8: when Init-all, the BeforeStart hooks and Start-all succeed and an
    AfterStart hook returns an error, [Run] stops the started modules (all
    the registered ones) through [shutdownModules], in reverse order, and
    returns the hook error, wrapped, joined with the [Stop] errors of that
    rollback. *)
Theorem Run_afterStart_hook_failure o ctx s s2 s3 started s4 err s5 :
  isRunning (app s) = false ->
  initAll (runCtx o ctx s) (entered o s) = (None, s2) ->
  runHooksBeforeStart (runCtx o ctx s) s2 = (None, s3) ->
  startAll (runCtx o ctx s)
    (record_events s3 [EvLog LevelInfo "starting modules" []]) =
    ((Some started, None), s4) ->
  runHooksAfterStart (runCtx o ctx s) s4 = (Some err, s5) ->
  exists evs,
    Run o ctx s =
      (Returned
         (errors_Join [Some (Errorf "after start hook: %w" [] err);
                       errors_Join (Some <$> stop_failures evs)]),
       mkState (world_after_stops Background (reverse started) (world s5))
         (((trace s5 ++
            [EvLog LevelError "after start hook failed, shutting down"
               [("error", LogErr (Some err))]]) ++ evs) ++
          [EvCancel (WithCancel ctx)])
         (app s5)) /\
    started = getAll (app_registry (app s)) /\
    stop_calls evs = reverse started /\
    Forall (fun c => c.1.2 = Background) (phase_calls PStop evs) /\
    start_calls evs = [] /\
    errors_Join [Some (Errorf "after start hook: %w" [] err);
                 errors_Join (Some <$> stop_failures evs)] =
      Some (Join (Errorf "after start hook: %w" [] err ::
                  match stop_failures evs with
                  | [] => []
                  | fs => [Join fs]
                  end)).
Proof.
  intros Hrun Hinit Hbefore Hstart Hafter.
  destruct (shutdownModules_spec Background started
              (record_events s5
                 [EvLog LevelError "after start hook failed, shutting down"
                    [("error", LogErr (Some err))]]))
    as (evs & Heq & Hcalls & Hctx & _ & Hst & _).
  exists evs. split_and!.
  - enter_Run Hrun.
    run_phase (@initAll W) o ctx s (entered o s) Hinit.
    run_phase (@runHooksBeforeStart W) o ctx s s2 Hbefore.
    run_phase (@startAll W) o ctx s
      (record_events s3 [EvLog LevelInfo "starting modules" []]) Hstart.
    run_phase (@runHooksAfterStart W) o ctx s s4 Hafter.
    change (shutdownModules _ _ _) with
      (shutdownModules Background started
         (record_events s5
            [EvLog LevelError "after start hook failed, shutting down"
               [("error", LogErr (Some err))]])).
    by rewrite Heq.
  - pose proof (f_equal (fun x => x.1.1) Hstart) as Hl. simpl in Hl.
    unfold startAll, bind, registry_getAll in Hl.
    apply startAll_range_started in Hl. simpl in Hl. rewrite Hl.
    pose proof (runHooks_range_app KBeforeStart BeforeStart (runCtx o ctx s)
                  (hooks (app s2)) s2) as Hb.
    unfold runHooksBeforeStart, bind, getApp in Hbefore.
    rewrite Hbefore in Hb. simpl in Hb. rewrite Hb.
    pose proof (initAll_app (runCtx o ctx s) (entered o s)) as Hi.
    rewrite Hinit in Hi. simpl in Hi. by rewrite Hi.
  - done.
  - done.
  - unfold start_calls. by rewrite Hst.
  - rewrite errors_Join_Some. by destruct (stop_failures evs).
Qed.

(** The application record when the start-up phases are over. *)
Lemma startup_app o ctx s s2 s3 l s4 r s5 :
  initAll (runCtx o ctx s) (entered o s) = (None, s2) ->
  runHooksBeforeStart (runCtx o ctx s) s2 = (None, s3) ->
  startAll (runCtx o ctx s)
    (record_events s3 [EvLog LevelInfo "starting modules" []]) =
    ((l, None), s4) ->
  runHooksAfterStart (runCtx o ctx s) s4 = (r, s5) ->
  app s5 = app (entered o s).
Proof.
  intros Hinit Hbefore Hstart Hafter.
  pose proof (initAll_app (runCtx o ctx s) (entered o s)) as H1.
  rewrite Hinit in H1.
  pose proof (runHooks_range_app KBeforeStart BeforeStart (runCtx o ctx s)
                (hooks (app s2)) s2) as H2.
  unfold runHooksBeforeStart, bind, getApp in Hbefore. rewrite Hbefore in H2.
  pose proof (startAll_app (runCtx o ctx s)
                (record_events s3 [EvLog LevelInfo "starting modules" []])) as H3.
  rewrite Hstart in H3.
  pose proof (runHooks_range_app KAfterStart AfterStart (runCtx o ctx s)
                (hooks (app s4)) s4) as H4.
  unfold runHooksAfterStart, bind, getApp in Hafter. rewrite Hafter in H4.
  simpl in *. congruence.
Qed.

Lemma bgModules_of_none ms :
  Forall (fun m => Err m = None) ms -> bgModules_of ms = [].
Proof.
  induction 1 as [|m ms Hm _ IH]; [done |].
  unfold bgModules_of in *. simpl. by rewrite Hm.
Qed.

Lemma collectBackgroundErrors_none s :
  Forall (fun m => Err m = None) (getAll (app_registry (app s))) ->
  collectBackgroundErrors s = (None, s).
Proof.
  intros H. unfold collectBackgroundErrors, bind, registry_getAll.
  by rewrite (bgModules_of_none _ H).
Qed.

(** C9: when no registered module has the background-error capability,
    [collectBackgroundErrors] returns the nil channel, the receive on it is
    never ready, and with an uncancelled context [Run] stays blocked in its
    [select]: it neither fails nor goes on to shutdown. *)
Theorem Run_blocks_without_background_modules o ctx s s2 s3 l s4 s5 :
  isRunning (app s) = false ->
  Forall (fun m => Err m = None) (getAll (app_registry (app s))) ->
  ctxDone o = false ->
  initAll (runCtx o ctx s) (entered o s) = (None, s2) ->
  runHooksBeforeStart (runCtx o ctx s) s2 = (None, s3) ->
  startAll (runCtx o ctx s)
    (record_events s3 [EvLog LevelInfo "starting modules" []]) =
    ((l, None), s4) ->
  runHooksAfterStart (runCtx o ctx s) s4 = (None, s5) ->
  collectBackgroundErrors s5 = (None, s5) /\
  (forall done, select_ready done None =
                  if done then [CaseCtxDone] else []) /\
  select_pick (preferBg o) (select_ready (ctxDone o) None) = None /\
  Run o ctx s =
    (Blocked, record_events s5 [EvLog LevelInfo "application started" []]).
Proof.
  intros Hrun Hbg Hdone Hinit Hbefore Hstart Hafter.
  assert (collectBackgroundErrors s5 = (None, s5)) as Hcollect.
  { apply collectBackgroundErrors_none.
    by rewrite (startup_app o ctx s s2 s3 l s4 None s5). }
  split_and!; [done | by intros [] | by rewrite Hdone |].
  enter_Run Hrun.
  run_phase (@initAll W) o ctx s (entered o s) Hinit.
  run_phase (@runHooksBeforeStart W) o ctx s s2 Hbefore.
  run_phase (@startAll W) o ctx s
    (record_events s3 [EvLog LevelInfo "starting modules" []]) Hstart.
  run_phase (@runHooksAfterStart W) o ctx s s4 Hafter.
  rewrite Hcollect. cbv beta iota zeta. rewrite Hdone. done.
Qed.

End ApplicationProperties.

Lemma Run_afterStart_hook_failure_witness :
  let o := mkSched 1 2 false [] false StopFirst in
  let s := sampleState [db; cache] [warmupFails] 10 in
  let c := runCtx o Background s in
  let s2 := (initAll c (entered o s)).2 in
  let s3 := (runHooksBeforeStart c s2).2 in
  let s4 := (startAll c
               (record_events s3 [EvLog LevelInfo "starting modules" []])).2 in
  let s5 := (runHooksAfterStart c s4).2 in
  isRunning (app s) = false /\
  initAll c (entered o s) = (None, s2) /\
  runHooksBeforeStart c s2 = (None, s3) /\
  startAll c (record_events s3 [EvLog LevelInfo "starting modules" []]) =
    ((Some [db; cache], None), s4) /\
  runHooksAfterStart c s4 = (Some (External "warmup failed"), s5) /\
  exists evs,
    (Run o Background s).1 =
      Returned
        (errors_Join [Some (Errorf "after start hook: %w" [] (External "warmup failed"));
                      errors_Join (Some <$> stop_failures evs)]) /\
    stop_calls evs = [cache; db].
Proof.
  intros o s c s2 s3 s4 s5.
  assert (initAll c (entered o s) = (None, s2)) as H1 by reflexivity.
  assert (runHooksBeforeStart c s2 = (None, s3)) as H2 by reflexivity.
  assert (startAll c (record_events s3 [EvLog LevelInfo "starting modules" []]) =
            ((Some [db; cache], None), s4)) as H3 by reflexivity.
  assert (runHooksAfterStart c s4 = (Some (External "warmup failed"), s5)) as H4
    by reflexivity.
  split_and!; [reflexivity | exact H1 | exact H2 | exact H3 | exact H4 |].
  destruct (Run_afterStart_hook_failure o Background s s2 s3 [db; cache] s4
              (External "warmup failed") s5 eq_refl H1 H2 H3 H4)
    as (evs & Heq & _ & Hcalls & _).
  exists evs. rewrite Heq. split; [reflexivity | exact Hcalls].
Defined.

Lemma Run_blocks_without_background_modules_witness :
  let o := mkSched 1 2 false [TReader 0; TCloser] true StopFirst in
  let s := sampleState [db; cache] [] 10 in
  let c := runCtx o Background s in
  let s2 := (initAll c (entered o s)).2 in
  let s3 := (runHooksBeforeStart c s2).2 in
  let s4 := (startAll c
               (record_events s3 [EvLog LevelInfo "starting modules" []])).2 in
  let s5 := (runHooksAfterStart c s4).2 in
  isRunning (app s) = false /\
  Forall (fun m => Err m = None) (getAll (app_registry (app s))) /\
  ctxDone o = false /\
  initAll c (entered o s) = (None, s2) /\
  runHooksBeforeStart c s2 = (None, s3) /\
  startAll c (record_events s3 [EvLog LevelInfo "starting modules" []]) =
    ((Some [db; cache], None), s4) /\
  runHooksAfterStart c s4 = (None, s5) /\
  Run o Background s =
    (Blocked, record_events s5 [EvLog LevelInfo "application started" []]) /\
  stop_calls (trace (Run o Background s).2) = [].
Proof.
  intros o s c s2 s3 s4 s5.
  assert (Forall (fun m : AppModule journal => Err m = None)
            (getAll (app_registry (app s)))) as Hbg
    by (repeat constructor).
  assert (initAll c (entered o s) = (None, s2)) as H1 by reflexivity.
  assert (runHooksBeforeStart c s2 = (None, s3)) as H2 by reflexivity.
  assert (startAll c (record_events s3 [EvLog LevelInfo "starting modules" []]) =
            ((Some [db; cache], None), s4)) as H3 by reflexivity.
  assert (runHooksAfterStart c s4 = (None, s5)) as H4 by reflexivity.
  split_and!;
    [reflexivity | exact Hbg | reflexivity | exact H1 | exact H2 | exact H3
    | exact H4 | | reflexivity].
  apply (Run_blocks_without_background_modules o Background s s2 s3
           (Some [db; cache]) s4 s5 eq_refl Hbg eq_refl H1 H2 H3 H4).
Defined.


(** ** The background-error fan-in *)

Lemma count_unfinished_insert (rs : list Reader) (i : nat) (r r' : Reader) :
  rs !! i = Some r ->
  (count_unfinished (<[i := r']> rs) + (if unfinished r then 1 else 0) =
   count_unfinished rs + (if unfinished r' then 1 else 0))%nat.
Proof.
  unfold count_unfinished. revert i.
  induction rs as [|x rs IH]; intros [|i] H; simplify_eq/=; [lia |].
  specialize (IH i H). lia.
Qed.

Lemma count_unfinished_zero (rs : list Reader) :
  count_unfinished rs = 0%nat -> Forall (fun r => r_pc r = Finished) rs.
Proof.
  unfold count_unfinished, unfinished.
  induction rs as [|r rs IH]; simpl; [constructor |].
  destruct (r_pc r) eqn:Hpc; try (intros; lia).
  intros H. constructor; [done | by apply IH].
Qed.

Lemma step_task_inv (t : Task) (a : FanIn) :
  fanin_inv a -> fanin_inv (step_task t a).
Proof.
  intros Ha. pose proof Ha as [Hwg Hclosed]. destruct t as [i|]; simpl.
  - unfold step_reader.
    destruct (readers a !! i) as [r|] eqn:Hr; [| exact Ha].
    destruct (r_pc r) eqn:Hpc.
    + destruct (r_chan r) as [| |[e|]]; [exact Ha | | |]; (split; simpl; [| done]).
      * pose proof (count_unfinished_insert _ i r (set_pc r AtDone) Hr) as H1.
        unfold unfinished in H1; simpl in H1; rewrite Hpc in H1. lia.
      * pose proof (count_unfinished_insert _ i r
                      (set_pc r (AtSend (Errorf "background module %q: %w"
                                           [r_name r] e))) Hr) as H1.
        unfold unfinished in H1; simpl in H1; rewrite Hpc in H1. lia.
      * pose proof (count_unfinished_insert _ i r (set_pc r AtDone) Hr) as H1.
        unfold unfinished in H1; simpl in H1; rewrite Hpc in H1. lia.
    + destruct (length (merged a) <? capacity a)%nat; [| exact Ha].
      split; simpl; [| done].
      pose proof (count_unfinished_insert _ i r (set_pc r AtDone) Hr) as H1.
      unfold unfinished in H1; simpl in H1; rewrite Hpc in H1. lia.
    + pose proof (count_unfinished_insert _ i r (set_pc r Finished) Hr) as H1.
      unfold unfinished in H1; simpl in H1; rewrite Hpc in H1.
      split; simpl; [lia |]. intros Hc. specialize (Hclosed Hc). lia.
    + exact Ha.
  - unfold step_closer. destruct (closed a) eqn:Hc; [exact Ha |].
    destruct (wg a =? 0)%nat eqn:Hz; [| exact Ha].
    apply Nat.eqb_eq in Hz. split; simpl; done.
Qed.

Lemma run_tasks_inv (ts : list Task) (a : FanIn) :
  fanin_inv a -> fanin_inv (run_tasks ts a).
Proof.
  revert a. induction ts as [|t ts IH]; intros a Ha; [done |].
  simpl. apply IH. by apply step_task_inv.
Qed.

(** [merged] is closed only after every reader has finished. *)
Lemma closed_after_readers (a : FanIn) :
  fanin_inv a -> closed a = true ->
  Forall (fun r => r_pc r = Finished) (readers a).
Proof.
  intros [Hwg Hclosed] Hc. apply count_unfinished_zero.
  rewrite <- Hwg. by apply Hclosed.
Qed.

Section FanInProperties.

Context {W : Type}.

Lemma spawn_readers_spec (w : W) bgs (s : State W) :
  exists evs,
    spawn_readers w bgs s =
      ((fun bg => mkReader bg.1 (bg.2 w) AtRecv) <$> bgs,
       record_events s evs) /\
    forall p, phase_calls p evs = [].
Proof.
  revert s. induction bgs as [|bg bgs IH]; intros s.
  - exists []. unfold record_events. simpl. rewrite app_nil_r.
    split; [by destruct s | done].
  - simpl. unfold bind, emit, ret. simpl.
    destruct (IH (mkState (world s) (trace s ++ [EvGo "background reader"])
                    (app s))) as (evs & Heq & Hq).
    exists ([EvGo "background reader"] ++ evs). rewrite Heq.
    unfold record_events. simpl. rewrite <- app_assoc.
    split; [done |]. intros p. destruct p; exact (Hq _).
Qed.

Lemma count_unfinished_fresh (bgs : list (string * (W -> Recv))) (w : W) :
  count_unfinished ((fun bg => mkReader bg.1 (bg.2 w) AtRecv) <$> bgs) =
  length bgs.
Proof.
  unfold count_unfinished. induction bgs as [|bg bgs IH]; [done |].
  csimpl. by f_equal.
Qed.

(** The fan-in [collectBackgroundErrors] builds starts within the
    invariant, so whatever the scheduler does, [merged] is closed only
    after all readers have finished. *)
Lemma collectBackgroundErrors_closed_after_readers (s s' : State W)
    (a : FanIn) (ts : list Task) :
  collectBackgroundErrors s = (Some a, s') ->
  closed (run_tasks ts a) = true ->
  Forall (fun r => r_pc r = Finished) (readers (run_tasks ts a)).
Proof.
  intros Hc. apply closed_after_readers, run_tasks_inv.
  unfold collectBackgroundErrors, bind, registry_getAll, getWorld, emit, ret in Hc.
  simpl in Hc.
  destruct (length (bgModules_of (getAll (app_registry (app s)))) =? 0)%nat;
    [done |].
  destruct (spawn_readers_spec (world s)
              (bgModules_of (getAll (app_registry (app s)))) s)
    as (evs & Heq & _).
  rewrite Heq in Hc. simplify_eq/=.
  split; simpl; [| done]. by rewrite count_unfinished_fresh.
Qed.

End FanInProperties.

(** ** Shutdown *)

Section ShutdownProperties.

Context {W : Type}.

Implicit Types (m : AppModule W) (s : State W) (evs : list (Event W)) (o : Sched).



Lemma spawned_app evs1 evs2 : spawned (evs1 ++ evs2) = spawned evs1 ++ spawned evs2.
Proof. apply omap_app. Qed.

Lemma spawned_frame (tr evs : list (Event W)) :
  spawned (tr ++ evs) = spawned tr -> spawned evs = [].
Proof.
  rewrite spawned_app. intros H.
  apply (app_inv_head (spawned tr)). by rewrite app_nil_r.
Qed.

Lemma runHooks_range_spawned k sel ctx hs s :
  spawned (trace (runHooks_range k sel ctx hs s).2) = spawned (trace s).
Proof.
  revert s. induction hs as [|h hs IH]; intros s; [done |].
  simpl. destruct (sel h) as [f|]; [| apply IH].
  unfold bind, call. simpl.
  destruct (f ctx (world s)) as [[e|] w1].
  - simpl. by rewrite spawned_app, app_nil_r.
  - rewrite IH. simpl. by rewrite spawned_app, app_nil_r.
Qed.

Lemma shutdownModules_loop_spawned ctx ms n :
  forall errs s,
    spawned (trace (shutdownModules_loop ctx ms n errs s).2) = spawned (trace s).
Proof.
  induction n as [|i IH]; intros errs s; [done |].
  simpl. destruct (ms !! i) as [m|]; [| done].
  unfold bind, logInfo, logError, emit, callStop, call. simpl.
  destruct (Stop m ctx (world s)) as [[e|] w1]; simpl;
    rewrite IH; simpl; by rewrite !spawned_app, !app_nil_r.
Qed.

Lemma shutdownModules_spawned ctx ms s :
  spawned (trace (shutdownModules ctx ms s).2) = spawned (trace s).
Proof.
  unfold shutdownModules, bind.
  pose proof (shutdownModules_loop_spawned ctx ms (length ms) [] s) as H.
  by destruct (shutdownModules_loop ctx ms (length ms) [] s).
Qed.

End ShutdownProperties.

Section ShutdownSpec.

Context {W : Type}.

Implicit Types (m : AppModule W) (s : State W) (evs : list (Event W)) (o : Sched).

Lemma shutdown_spec o s :
  let a := app s in
  let ms := getAll (app_registry a) in
  let T := shutdownTimeout a in
  exists before evs0 base evs1 after evs2 w',
    (runHooksBeforeStop Background s).1 = before /\
    (forall p, phase_calls p evs0 = []) /\ spawned evs0 = [] /\
    only_stops (if 0 <? T then WithTimeout Background T else Background)
      (reverse (if 0 <? T then
                  match race o with
                  | StopFirst => ms
                  | TimerFirst k => drop (length ms - k) ms
                  end
                else ms)) evs1 /\
    spawned evs1 = [] /\
    base = (if 0 <? T then
              match race o with
              | StopFirst => errors_Join (Some <$> stop_failures evs1)
              | TimerFirst _ => Some ErrGracefulShutdownTimedOut
              end
            else errors_Join (Some <$> stop_failures evs1)) /\
    (forall p, phase_calls p evs2 = []) /\ spawned evs2 = [] /\
    (forall e, after = Some e ->
       exists h f w, h ∈ hooks a /\ AfterStop h = Some f /\
                     (f Background w).1 = Some e) /\
    shutdown o s =
      (match after with
       | Some e => errors_Join [base; Some (Errorf "after stop hook: %w" [] e)]
       | None => base
       end,
       mkState w'
         (trace s ++ shutdown_events T before evs0 base evs1 after evs2)
         (stopped_app (timeStop o) a)).
Proof.
  intros a ms T.
  destruct (runHooks_range_spec KBeforeStop BeforeStop Background (hooks (app s)) s)
    as (before & evs0 & w0 & Heq0 & Hq0 & _).
  pose proof (runHooks_range_spawned KBeforeStop BeforeStop Background
                (hooks (app s)) s) as Hs0.
  rewrite Heq0 in Hs0. cbn [snd trace] in Hs0. apply spawned_frame in Hs0.
  unfold shutdown, runHooksBeforeStop, runHooksAfterStop, shutdownAll,
    shutdownAll_abandoned, registry_getAll, getApp, bind.
  rewrite Heq0. clear Heq0.
  unfold set_stopTime, set_isRunning, logError, logInfo, emit, ret, setApp,
    getApp, bind.
  subst a ms T.
  destruct before as [eb|]; cbn [fst snd app world trace];
    (destruct (0 <? shutdownTimeout (app s)) eqn:HT;
     [destruct (race o) as [|k] eqn:Hrace |]);
    match goal with
    | |- context [shutdownModules ?c ?l ?st] =>
        destruct (shutdownModules_spec c l st) as (evs1 & Heq1 & Hstops);
        pose proof (shutdownModules_spawned c l st) as Hs1;
        rewrite Heq1 in Hs1 |- *; clear Heq1;
        cbn [snd trace] in Hs1; apply spawned_frame in Hs1
    end.
  all: cbn [fst snd app world trace] in *.
  all: try (destruct (errors_Join (Some <$> stop_failures evs1)) as [e1|] eqn:Hbase).
  all: cbn [fst snd app world trace].
  all: match goal with
    | |- context [runHooks_range KAfterStop AfterStop Background ?hs ?st] =>
        destruct (runHooks_range_spec KAfterStop AfterStop Background hs st)
          as (after & evs2 & w2 & Heq2 & Hq2 & Hafter);
        pose proof (runHooks_range_spawned KAfterStop AfterStop Background hs st)
          as Hs2;
        rewrite Heq2 in Hs2 |- *; clear Heq2;
        cbn [snd trace] in Hs2; apply spawned_frame in Hs2
    end.
  all: destruct after as [ea|]; cbn [fst snd app world trace].
  all: first [exists (Some eb) | exists None].
  all: eexists evs0, _, evs1, _, evs2, _.
  all: (split_and!; [reflexivity | exact Hq0 | exact Hs0 | exact Hstops | exact Hs1
                   | reflexivity | exact Hq2 | exact Hs2 | exact Hafter |]).
  all: unfold shutdown_events, stopped_app; rewrite ?HT, ?Hbase.
  all: cbn [app_meta app_registry hooks shutdownTimeout isRunning].
  all: rewrite <- ?app_assoc; simpl; rewrite ?app_nil_r; reflexivity.
Qed.

End ShutdownSpec.

Section ShutdownTheorems.

Context {W : Type}.

Implicit Types (m : AppModule W) (s : State W) (evs : list (Event W)) (o : Sched).

Lemma shutdown_events_calls p T before evs0 base evs1 after evs2 :
  (forall p, phase_calls p evs0 = []) ->
  (forall p, phase_calls p evs2 = []) ->
  phase_calls p (@shutdown_events W T before evs0 base evs1 after evs2) =
  phase_calls p evs1.
Proof.
  intros H0 H2. unfold shutdown_events.
  rewrite !phase_calls_app, H0, H2.
  destruct before, base, after, (0 <? T), p; simpl; by rewrite ?app_nil_r.
Qed.


Lemma stop_failures_none ms evs :
  (forall m ctx w, m ∈ ms -> (Stop m ctx w).1 = None) ->
  stop_calls evs ⊆ ms ->
  Forall genuine_stop (phase_calls PStop evs) ->
  stop_failures evs = [].
Proof.
  unfold stop_failures, stop_calls. intros Hms.
  induction (phase_calls PStop evs) as [|[[m c] r] cs IH]; [done |].
  intros Hsub [[w Hw] Hgen]%Forall_cons.
  assert (m ∈ ms) as Hm by (apply Hsub; left).
  simpl in Hw. rewrite (Hms m c w Hm) in Hw. subst r. csimpl.
  apply IH; [| done]. intros x Hx. apply Hsub. by right.
Qed.

(** X16: Whatever the hooks, the modules and the race do, [shutdown] leaves
    the application stopped: the run flag reset, the stop time stamped,
    and the registry, the hooks, the other metadata and the graceful
    timeout as they were. *)
Theorem shutdown_resets_application o s :
  app (shutdown o s).2 = stopped_app (timeStop o) (app s) /\
  isRunning (app (shutdown o s).2) = false /\
  stopTime (app_meta (app (shutdown o s).2)) = timeStop o /\
  startTime (app_meta (app (shutdown o s).2)) = startTime (app_meta (app s)) /\
  app_registry (app (shutdown o s).2) = app_registry (app s) /\
  hooks (app (shutdown o s).2) = hooks (app s) /\
  shutdownTimeout (app (shutdown o s).2) = shutdownTimeout (app s).
Proof.
  destruct (shutdown_spec o s)
    as (before & evs0 & base & evs1 & after & evs2 & w' & _ & _ & _ & _ & _ &
        _ & _ & _ & _ & ->).
  done.
Qed.


(** [shutdown] when nothing but BeforeStop hooks can fail and the timer
    does not fire. *)
Lemma shutdown_clean_result o s :
  let ms := getAll (app_registry (app s)) in
  (0 <? shutdownTimeout (app s)) = false \/ race o = StopFirst ->
  (forall m ctx w, m ∈ ms -> (Stop m ctx w).1 = None) ->
  (forall h f ctx w, h ∈ hooks (app s) -> AfterStop h = Some f ->
     (f ctx w).1 = None) ->
  exists evs w',
    shutdown o s =
      (None, mkState w' (trace s ++ evs) (stopped_app (timeStop o) (app s))) /\
    stop_calls evs = reverse ms /\
    (forall e, (runHooksBeforeStop Background s).1 = Some e ->
       EvLog LevelError "before stop hook failed" [("error", LogErr (Some e))]
         ∈ evs).
Proof.
  intros ms Hrace Hstop Hhook.
  destruct (shutdown_spec o s)
    as (before & evs0 & base & evs1 & after & evs2 & w' & Hb & Hq0 & Hs0 &
        (Hcalls & Hctx & _ & _ & Hgen) & Hs1 & Hbase & Hq2 & Hs2 & Hafter & Heq).
  fold ms in Hcalls, Hbase.
  assert (after = None) as ->.
  { destruct after as [e|]; [| done].
    destruct (Hafter e eq_refl) as (h & f & w & Hh & Hf & Hw).
    by rewrite (Hhook h f Background w Hh Hf) in Hw. }
  assert (reverse (if 0 <? shutdownTimeout (app s)
                   then match race o with
                        | StopFirst => ms
                        | TimerFirst k => drop (length ms - k) ms
                        end
                   else ms) = reverse ms) as Hms.
  { destruct Hrace as [-> | ->]; [done | by destruct (0 <? _)]. }
  rewrite Hms in Hcalls.
  assert (stop_failures evs1 = []) as Hnone.
  { apply (stop_failures_none ms); [done | | done].
    rewrite Hcalls. intros x Hx. by apply (elem_of_reverse x ms). }
  assert (base = None) as Hbase'.
  { rewrite Hbase, Hnone. destruct Hrace as [-> | ->]; [done | by destruct (0 <? _)]. }
  exists (shutdown_events (shutdownTimeout (app s)) before evs0 base evs1 None evs2),
    w'.
  rewrite Heq. simpl. split_and!.
  - by rewrite Hbase'.
  - unfold stop_calls. by rewrite (shutdown_events_calls PStop).
  - intros e He. rewrite Hb in He. rewrite He. unfold shutdown_events.
    rewrite !elem_of_app. right. left. left.
Qed.

(** X18: A failing BeforeStop hook neither aborts [shutdown] nor shows in its
    result: when [Stop] calls and AfterStop hooks do not fail and the
    timer does not fire, the hook's error is logged, every module is
    stopped, in reverse order, and [shutdown] returns nil. *)
Theorem shutdown_beforeStop_failure_not_returned o s e :
  let ms := getAll (app_registry (app s)) in
  (runHooksBeforeStop Background s).1 = Some e ->
  (0 <? shutdownTimeout (app s)) = false \/ race o = StopFirst ->
  (forall m ctx w, m ∈ ms -> (Stop m ctx w).1 = None) ->
  (forall h f ctx w, h ∈ hooks (app s) -> AfterStop h = Some f ->
     (f ctx w).1 = None) ->
  exists evs,
    trace (shutdown o s).2 = trace s ++ evs /\
    EvLog LevelError "before stop hook failed" [("error", LogErr (Some e))]
      ∈ evs /\
    stop_calls evs = reverse ms /\
    (shutdown o s).1 = None.
Proof.
  intros ms Hbefore Hrace Hstop Hhook.
  destruct (shutdown_clean_result o s Hrace Hstop Hhook)
    as (evs & w' & Heq & Hcalls & Hlog).
  exists evs. rewrite Heq. simpl. split_and!; [done | by apply Hlog | done | done].
Qed.

End ShutdownTheorems.


Lemma shutdown_beforeStop_failure_not_returned_witness :
  let o := mkSched 1 2 true [] false StopFirst in
  let s := sampleState [db; http] [drainFails] 10 in
  (runHooksBeforeStop Background s).1 = Some (External "drain failed") /\
  ((0 <? 10) = false \/ race o = StopFirst) /\
  (forall m ctx w, m ∈ [db; http] -> (Stop m ctx w).1 = None) /\
  (forall h f ctx w, h ∈ [drainFails] -> AfterStop h = Some f ->
     (f ctx w).1 = None) /\
  exists evs,
    trace (shutdown o s).2 = trace s ++ evs /\
    EvLog LevelError "before stop hook failed"
      [("error", LogErr (Some (External "drain failed")))] ∈ evs /\
    stop_calls evs = [http; db] /\
    (shutdown o s).1 = None.
Proof.
  intros o s.
  assert (forall (m : AppModule journal) ctx w,
            m ∈ [db; http] -> (Stop m ctx w).1 = None) as H1.
  { intros m ctx w Hm. apply list_elem_of_In in Hm. simpl in Hm.
    destruct Hm as [<-|[<-|[]]]; reflexivity. }
  assert (forall (h : Hook journal) f ctx w,
            h ∈ [drainFails] -> AfterStop h = Some f -> (f ctx w).1 = None)
    as H2.
  { intros h f ctx w Hh Hf. apply list_elem_of_In in Hh. simpl in Hh.
    destruct Hh as [<-|[]]. inversion Hf. }
  split; [reflexivity |]. split; [right; reflexivity |].
  split; [exact H1 |]. split; [exact H2 |].
  exact (shutdown_beforeStop_failure_not_returned o s (External "drain failed")
           eq_refl (or_intror eq_refl) H1 H2).
Defined.

(** ** More on the background-error fan-in *)

Lemma count_may_send_insert (rs : list Reader) (i : nat) (r r' : Reader) :
  rs !! i = Some r ->
  (count_may_send (<[i := r']> rs) + (if may_send r then 1 else 0) =
   count_may_send rs + (if may_send r' then 1 else 0))%nat.
Proof.
  unfold count_may_send. revert i.
  induction rs as [|x rs IH]; intros [|i] H; simplify_eq/=; [lia |].
  specialize (IH i H). lia.
Qed.

Lemma count_may_send_pos (rs : list Reader) (i : nat) (r : Reader) :
  rs !! i = Some r -> may_send r = true -> (1 <= count_may_send rs)%nat.
Proof.
  unfold count_may_send. revert i.
  induction rs as [|x rs IH]; intros [|i] H Hr; simplify_eq/=.
  - rewrite Hr. lia.
  - specialize (IH i H Hr). lia.
Qed.

Lemma step_task_buffer_inv (t : Task) (a : FanIn) :
  fanin_buffer_inv a ->
  fanin_buffer_inv (step_task t a) /\ capacity (step_task t a) = capacity a.
Proof.
  unfold fanin_buffer_inv. intros Ha. destruct t as [i|]; simpl.
  - unfold step_reader.
    destruct (readers a !! i) as [r|] eqn:Hr; [| done].
    destruct (r_pc r) eqn:Hpc.
    + destruct (r_chan r) as [| |[e|]]; [done | | |]; (split; [| done]); simpl.
      * pose proof (count_may_send_insert _ i r (set_pc r AtDone) Hr) as H1.
        unfold may_send in H1; simpl in H1; rewrite Hpc in H1. lia.
      * pose proof (count_may_send_insert _ i r
                      (set_pc r (AtSend (Errorf "background module %q: %w"
                                           [r_name r] e))) Hr) as H1.
        unfold may_send in H1; simpl in H1; rewrite Hpc in H1. lia.
      * pose proof (count_may_send_insert _ i r (set_pc r AtDone) Hr) as H1.
        unfold may_send in H1; simpl in H1; rewrite Hpc in H1. lia.
    + destruct (length (merged a) <? capacity a)%nat; [| done].
      split; [| done]. simpl. rewrite length_app. simpl.
      pose proof (count_may_send_insert _ i r (set_pc r AtDone) Hr) as H1.
      unfold may_send in H1; simpl in H1; rewrite Hpc in H1. lia.
    + split; [| done]. simpl.
      pose proof (count_may_send_insert _ i r (set_pc r Finished) Hr) as H1.
      unfold may_send in H1; simpl in H1; rewrite Hpc in H1. lia.
    + done.
  - unfold step_closer. destruct (closed a); [done |].
    by destruct (wg a =? 0)%nat.
Qed.

Lemma run_tasks_buffer_inv (ts : list Task) (a : FanIn) :
  fanin_buffer_inv a ->
  fanin_buffer_inv (run_tasks ts a) /\ capacity (run_tasks ts a) = capacity a.
Proof.
  revert a. induction ts as [|t ts IH]; intros a Ha; [done |].
  simpl. destruct (step_task_buffer_inv t a Ha) as [H1 H2].
  destruct (IH _ H1) as [H3 H4]. split; [done | congruence].
Qed.

Lemma fmap_insert_same {A B} (f : A -> B) (rs : list A) (i : nat) (r r' : A) :
  rs !! i = Some r -> f r' = f r -> f <$> <[i := r']> rs = f <$> rs.
Proof.
  intros Hr Hf. rewrite list_fmap_insert, Hf.
  apply list_insert_id. by rewrite list_lookup_fmap, Hr.
Qed.

Lemma step_task_origin_inv (a0 : FanIn) (t : Task) (a : FanIn) :
  fanin_origin_inv a0 a -> fanin_origin_inv a0 (step_task t a).
Proof.
  intros Ha. pose proof Ha as (Hid & Hsend & Hmerged).
  destruct t as [i|]; simpl.
  - unfold step_reader.
    destruct (readers a !! i) as [r|] eqn:Hr; [| exact Ha].
    assert (forall pc, reader_error <$> <[i := set_pc r pc]> (readers a) =
                       reader_error <$> readers a0) as Hid'.
    { intros pc. rewrite <- Hid. by apply (fmap_insert_same _ _ _ r). }
    destruct (r_pc r) eqn:Hpc.
    + destruct (r_chan r) as [| |[e|]] eqn:Hch; [exact Ha | | |];
        (split_and!; simpl; [apply Hid' | | done]);
        (apply Forall_insert; [done |]); intros e' He'; simplify_eq/=.
      unfold reader_error. simpl. by rewrite Hch.
    + destruct (length (merged a) <? capacity a)%nat; [| exact Ha].
      split_and!; simpl; [apply Hid' | |].
      * apply Forall_insert; [done |]. by intros e' He'.
      * apply Forall_app. split; [done |]. constructor; [| constructor].
        rewrite <- Hid. apply list_elem_of_fmap. exists r. split.
        -- symmetry. rewrite Forall_forall in Hsend.
           apply (Hsend r); [by eapply list_elem_of_lookup_2 | done].
        -- by eapply list_elem_of_lookup_2.
    + split_and!; simpl; [apply Hid' | | done].
      apply Forall_insert; [done |]. by intros e' He'.
    + exact Ha.
  - unfold step_closer. destruct (closed a); [exact Ha |].
    by destruct (wg a =? 0)%nat.
Qed.

Lemma run_tasks_origin_inv (a0 : FanIn) (ts : list Task) (a : FanIn) :
  fanin_origin_inv a0 a -> fanin_origin_inv a0 (run_tasks ts a).
Proof.
  revert a. induction ts as [|t ts IH]; intros a Ha; [done |].
  simpl. apply IH. by apply step_task_origin_inv.
Qed.

Section FanInTheorems.

Context {W : Type}.

Implicit Types (s : State W) (a : FanIn) (ts : list Task).

Lemma collectBackgroundErrors_spec s :
  let bgs := bgModules_of (getAll (app_registry (app s))) in
  exists evs,
    collectBackgroundErrors s =
      (match bgs with
       | [] => None
       | _ => Some (mkFanIn ((fun bg => mkReader bg.1 (bg.2 (world s)) AtRecv) <$> bgs)
                      [] (length bgs) false (length bgs))
       end,
       record_events s evs) /\
    (forall p, phase_calls p evs = []).
Proof.
  intros bgs. unfold collectBackgroundErrors, bind, registry_getAll, getWorld,
    emit, ret. simpl. fold bgs.
  destruct bgs as [|bg bgs'] eqn:Hbgs.
  - exists []. unfold record_events. rewrite app_nil_r. by destruct s.
  - rewrite <- Hbgs. assert ((length bgs =? 0)%nat = false) as ->
      by (by rewrite Hbgs).
    destruct (spawn_readers_spec (world s) bgs s) as (evs & Heq & Hq).
    rewrite Heq. exists (evs ++ [EvGo "background closer"]).
    unfold record_events. simpl. rewrite app_assoc. split; [by rewrite Hbgs |].
    intros p. rewrite phase_calls_app, Hq. by destruct p.
Qed.

Lemma collectBackgroundErrors_app s :
  app (collectBackgroundErrors s).2 = app s.
Proof.
  destruct (collectBackgroundErrors_spec s) as (evs & -> & _). done.
Qed.

(** The fan-in [collectBackgroundErrors] returns: one reader per
    background module, blocked on its channel, an empty buffer with one
    slot per reader, and the wait group counting them all. *)
Lemma collected_fanin s a s' :
  collectBackgroundErrors s = (Some a, s') ->
  let bgs := bgModules_of (getAll (app_registry (app s))) in
  a = mkFanIn ((fun bg => mkReader bg.1 (bg.2 (world s)) AtRecv) <$> bgs)
        [] (length bgs) false (length bgs).
Proof.
  intros Hc bgs. destruct (collectBackgroundErrors_spec s) as (evs & Heq & _).
  fold bgs in Heq. rewrite Heq in Hc. destruct bgs; by simplify_eq/=.
Qed.

Lemma count_may_send_fresh (bgs : list (string * (W -> Recv))) (w : W) :
  count_may_send ((fun bg => mkReader bg.1 (bg.2 w) AtRecv) <$> bgs) =
  length bgs.
Proof.
  unfold count_may_send. induction bgs as [|bg bgs IH]; [done |].
  csimpl. by f_equal.
Qed.

Lemma collected_buffer_inv s a s' :
  collectBackgroundErrors s = (Some a, s') -> fanin_buffer_inv a.
Proof.
  intros ->%collected_fanin. unfold fanin_buffer_inv. simpl.
  by rewrite count_may_send_fresh.
Qed.

Lemma collected_origin_inv s a s' :
  collectBackgroundErrors s = (Some a, s') -> fanin_origin_inv a a.
Proof.
  intros ->%collected_fanin. split_and!; simpl; [done | | constructor].
  apply Forall_fmap, Forall_forall. by intros bg _ e.
Qed.

(** An error a reader of the collected fan-in can send is the non-nil
    value its module's channel delivers, wrapped with the module's name. *)
Lemma collected_reader_error s a s' (e : error) :
  collectBackgroundErrors s = (Some a, s') ->
  Some e ∈ reader_error <$> readers a ->
  exists m ch v,
    m ∈ getAll (app_registry (app s)) /\ Err m = Some ch /\
    ch (world s) = RecvValue (Some v) /\
    e = Errorf "background module %q: %w" [Name m] v.
Proof.
  intros ->%collected_fanin. simpl.
  intros (r & Hr & (bg & -> & Hbg)%list_elem_of_fmap)%list_elem_of_fmap.
  unfold bgModules_of in Hbg.
  apply list_elem_of_omap in Hbg as (m & Hm & Hbg).
  destruct (Err m) as [ch|] eqn:Hch; [| done]. simplify_eq/=.
  unfold reader_error in Hr. simpl in Hr.
  destruct (ch (world s)) as [| |[v|]] eqn:Hv; try done.
  exists m, ch, v. by simplify_eq/=.
Qed.

(** X19: In every schedule of the fan-in goroutines, [merged] never holds more
    errors than its capacity, the number of background modules, and a
    reader that has an error to send finds room: its send does not block,
    it appends the error and moves on to [wg.Done()]. *)
Theorem fanin_send_never_blocks s a s' ts :
  collectBackgroundErrors s = (Some a, s') ->
  let a' := run_tasks ts a in
  capacity a' = length (bgModules_of (getAll (app_registry (app s)))) /\
  (length (merged a') <= capacity a')%nat /\
  forall i r e,
    readers a' !! i = Some r -> r_pc r = AtSend e ->
    (length (merged a') < capacity a')%nat /\
    merged (step_reader i a') = merged a' ++ [e] /\
    readers (step_reader i a') !! i = Some (set_pc r AtDone).
Proof.
  intros Hc a'.
  destruct (run_tasks_buffer_inv ts a (collected_buffer_inv s a s' Hc))
    as [Hinv Hcap].
  fold a' in Hinv, Hcap. unfold fanin_buffer_inv in Hinv.
  split_and!.
  - rewrite Hcap. by rewrite (collected_fanin s a s' Hc).
  - lia.
  - intros i r e Hr Hpc.
    assert (1 <= count_may_send (readers a'))%nat as Hpos.
    { apply (count_may_send_pos _ i r Hr). unfold may_send. by rewrite Hpc. }
    assert (length (merged a') < capacity a')%nat as Hlt by lia.
    split; [done |].
    unfold step_reader. rewrite Hr, Hpc.
    apply Nat.ltb_lt in Hlt. rewrite Hlt. simpl. split; [done |].
    apply list_lookup_insert_eq. by eapply lookup_lt_Some.
Qed.

(** X20: In every schedule, each error in [merged] is the non-nil value some
    registered background module's channel delivered, wrapped with that
    module's name. *)
Theorem fanin_errors_come_from_modules s a s' ts (e : error) :
  collectBackgroundErrors s = (Some a, s') ->
  e ∈ merged (run_tasks ts a) ->
  exists m ch v,
    m ∈ getAll (app_registry (app s)) /\ Err m = Some ch /\
    ch (world s) = RecvValue (Some v) /\
    e = Errorf "background module %q: %w" [Name m] v.
Proof.
  intros Hc He.
  destruct (run_tasks_origin_inv a ts a (collected_origin_inv s a s' Hc))
    as (_ & _ & Hmerged).
  rewrite Forall_forall in Hmerged.
  by apply (collected_reader_error s a s' e Hc), Hmerged.
Qed.

(** When no background module's channel delivers a non-nil error,
    [merged] stays empty in every schedule. *)
Lemma collected_clean_merged s a s' ts :
  collectBackgroundErrors s = (Some a, s') ->
  (forall m ch, m ∈ getAll (app_registry (app s)) -> Err m = Some ch ->
     clean_chan (ch (world s)) = true) ->
  merged (run_tasks ts a) = [].
Proof.
  intros Hc Hclean.
  destruct (run_tasks_origin_inv a ts a (collected_origin_inv s a s' Hc))
    as (_ & _ & Hmerged).
  destruct (merged (run_tasks ts a)) as [|e es]; [done |].
  apply Forall_cons in Hmerged as [He _].
  destruct (collected_reader_error s a s' e Hc He)
    as (m & ch & v & Hm & Hch & Hv & _).
  specialize (Hclean m ch Hm Hch). by rewrite Hv in Hclean.
Qed.

End FanInTheorems.

(** ** [Run] as a whole *)

Section RunProperties.

Context {W : Type}.

Implicit Types (m : AppModule W) (s : State W) (evs : list (Event W)) (o : Sched).

Ltac enter_Run Hrun :=
  unfold Run, bind, getApp; rewrite Hrun;
  unfold set_isRunning, registry_lock, set_startTime, bind, getApp, setApp,
    logInfo, logError, emit, ret;
  cbn [fst snd app world trace app_meta app_registry hooks isRunning
       shutdownTimeout].

Ltac run_phase f o ctx s st H :=
  change (f _ _) with (f (runCtx o ctx s) st);
  rewrite H; cbv beta iota zeta;
  cbn [fst snd app world trace app_meta app_registry hooks isRunning
       shutdownTimeout].

Lemma Run_afterStart_fails o ctx s s2 s3 l s4 e s5 r s6 :
  isRunning (app s) = false ->
  initAll (runCtx o ctx s) (entered o s) = (None, s2) ->
  runHooksBeforeStart (runCtx o ctx s) s2 = (None, s3) ->
  startAll (runCtx o ctx s)
    (record_events s3 [EvLog LevelInfo "starting modules" []]) =
    ((l, None), s4) ->
  runHooksAfterStart (runCtx o ctx s) s4 = (Some e, s5) ->
  shutdownModules Background (default [] l)
    (record_events s5
       [EvLog LevelError "after start hook failed, shutting down"
          [("error", LogErr (Some e))]]) = (r, s6) ->
  Run o ctx s =
    (Returned (errors_Join [Some (Errorf "after start hook: %w" [] e); r]),
     record_events s6 [EvCancel (WithCancel ctx)]).
Proof.
  intros Hrun Hinit Hbefore Hstart Hafter Hstop. enter_Run Hrun.
  run_phase (@initAll W) o ctx s (entered o s) Hinit.
  run_phase (@runHooksBeforeStart W) o ctx s s2 Hbefore.
  run_phase (@startAll W) o ctx s
    (record_events s3 [EvLog LevelInfo "starting modules" []]) Hstart.
  run_phase (@runHooksAfterStart W) o ctx s s4 Hafter.
  change (shutdownModules _ _ _) with
    (shutdownModules Background (default [] l)
       (record_events s5
          [EvLog LevelError "after start hook failed, shutting down"
             [("error", LogErr (Some e))]])).
  by rewrite Hstop.
Qed.

(** The application record at the end of a failed start-up is the one
    [Run] set up on entry. *)
Lemma startup_fails_app o ctx s r s' :
  startup_fails o ctx s r s' -> app s' = app (entered o s).
Proof.
  destruct 1 as [e s2 Hinit|s2 e s3 Hinit Hbefore|s2 s3 l e s4 Hinit Hbefore Hstart
                |s2 s3 l s4 e s5 r s6 Hinit Hbefore Hstart Hafter Hstop]; simpl.
  - pose proof (initAll_app (runCtx o ctx s) (entered o s)) as H1.
    by rewrite Hinit in H1.
  - pose proof (initAll_app (runCtx o ctx s) (entered o s)) as H1.
    rewrite Hinit in H1.
    pose proof (runHooks_range_app KBeforeStart BeforeStart (runCtx o ctx s)
                  (hooks (app s2)) s2) as H2.
    unfold runHooksBeforeStart, bind, getApp in Hbefore. rewrite Hbefore in H2.
    simpl in *. congruence.
  - pose proof (initAll_app (runCtx o ctx s) (entered o s)) as H1.
    rewrite Hinit in H1.
    pose proof (runHooks_range_app KBeforeStart BeforeStart (runCtx o ctx s)
                  (hooks (app s2)) s2) as H2.
    unfold runHooksBeforeStart, bind, getApp in Hbefore. rewrite Hbefore in H2.
    pose proof (startAll_app (runCtx o ctx s)
                  (record_events s3 [EvLog LevelInfo "starting modules" []])) as H3.
    rewrite Hstart in H3.
    simpl in *. congruence.
  - pose proof (startup_app o ctx s s2 s3 l s4 (Some e) s5
                  Hinit Hbefore Hstart Hafter) as H1.
    pose proof (shutdownModules_app Background (default [] l)
                  (record_events s5
                     [EvLog LevelError "after start hook failed, shutting down"
                        [("error", LogErr (Some e))]])) as H2.
    rewrite Hstop in H2. simpl in *. congruence.
Qed.

Lemma Run_startup_fails o ctx s r s' :
  isRunning (app s) = false ->
  startup_fails o ctx s r s' ->
  Run o ctx s = (Returned r, s').
Proof.
  intros Hrun Hfail.
  destruct Hfail as [e s2 Hinit|s2 e s3 Hinit Hbefore
                    |s2 s3 l e s4 Hinit Hbefore Hstart
                    |s2 s3 l s4 e s5 r s6 Hinit Hbefore Hstart Hafter Hstop].
  - by apply Run_init_fails.
  - by eapply Run_beforeStart_fails.
  - by eapply Run_startAll_fails.
  - by eapply Run_afterStart_fails.
Qed.

(** X10: When the start-up fails, in any of its four ways, [Run] returns the
    error with the run flag still set: the application is left marked as
    running with a locked registry, and every later call of [Run] is
    refused with [ErrApplicationAlreadyRunning] and does nothing. *)
Theorem Run_failed_startup_keeps_run_flag o ctx s r s' :
  isRunning (app s) = false ->
  startup_fails o ctx s r s' ->
  Run o ctx s = (Returned r, s') /\
  isRunning (app s') = true /\
  locked (app_registry (app s')) = true /\
  forall o' ctx',
    Run o' ctx' s' = (Returned (Some ErrApplicationAlreadyRunning), s').
Proof.
  intros Hrun Hfail.
  pose proof (startup_fails_app o ctx s r s' Hfail) as Happ.
  assert (isRunning (app s') = true) as Hflag by (by rewrite Happ).
  split_and!.
  - by apply Run_startup_fails.
  - done.
  - by rewrite Happ.
  - intros o' ctx'. by apply Run_already_running.
Qed.

(** [Run] once the start-up has succeeded: it waits in its [select], and
    when a case fires it logs which one and returns what [shutdown]
    returns. *)
Lemma Run_started o ctx s s5 ch s6 :
  isRunning (app s) = false ->
  started_up o ctx s s5 ->
  collectBackgroundErrors s5 = (ch, s6) ->
  Run o ctx s =
    let a := run_tasks (bgTasks o) <$> ch in
    let s7 := record_events s6 [EvLog LevelInfo "application started" []] in
    match select_pick (preferBg o) (select_ready (ctxDone o) a) with
    | None => (Blocked, s7)
    | Some c =>
        let sd :=
          record_events s7
            match c with
            | CaseCtxDone => [EvLog LevelInfo "shutdown signal received" []]
            | CaseBgErr =>
                [EvLog LevelError "background module failed"
                   [("error", LogErr (a ≫= chan_recv))];
                 EvCancel (WithCancel ctx)]
            end in
        (Returned (shutdown o sd).1,
         record_events (shutdown o sd).2 [EvCancel (WithCancel ctx)])
    end.
Proof.
  intros Hrun (s2 & s3 & l & s4 & Hinit & Hbefore & Hstart & Hafter) Hcollect.
  enter_Run Hrun.
  run_phase (@initAll W) o ctx s (entered o s) Hinit.
  run_phase (@runHooksBeforeStart W) o ctx s s2 Hbefore.
  run_phase (@startAll W) o ctx s
    (record_events s3 [EvLog LevelInfo "starting modules" []]) Hstart.
  run_phase (@runHooksAfterStart W) o ctx s s4 Hafter.
  rewrite Hcollect. cbv beta iota zeta.
  destruct (select_pick (preferBg o)
              (select_ready (ctxDone o) (run_tasks (bgTasks o) <$> ch)))
    as [[|]|]; [| | done].
  - unfold record_events. simpl.
    by destruct (shutdown o _) as [r s8].
  - unfold record_events. simpl. rewrite <- app_assoc. simpl.
    by destruct (shutdown o _) as [r s8].
Qed.

(** The application record when the start-up is over and the fan-in is
    set up. *)
Lemma started_up_app o ctx s s5 ch s6 :
  started_up o ctx s s5 ->
  collectBackgroundErrors s5 = (ch, s6) ->
  app s5 = app (entered o s) /\ app s6 = app (entered o s).
Proof.
  intros (s2 & s3 & l & s4 & Hinit & Hbefore & Hstart & Hafter) Hcollect.
  pose proof (startup_app o ctx s s2 s3 l s4 None s5 Hinit Hbefore Hstart Hafter)
    as H5.
  pose proof (collectBackgroundErrors_app s5) as H6. rewrite Hcollect in H6.
  simpl in H6. split; congruence.
Qed.

(** X12: Once the start-up has succeeded and a case of the [select] fires,
    [Run] returns exactly what [shutdown] returns, and it leaves the
    application stopped: the run flag reset, start and stop time stamped,
    the registry locked. *)
Theorem Run_returns_shutdown_result o ctx s s5 ch s6 c :
  isRunning (app s) = false ->
  started_up o ctx s s5 ->
  collectBackgroundErrors s5 = (ch, s6) ->
  select_pick (preferBg o)
    (select_ready (ctxDone o) (run_tasks (bgTasks o) <$> ch)) = Some c ->
  exists sd,
    world sd = world s6 /\
    trace sd =
      trace s6 ++ [EvLog LevelInfo "application started" []] ++
      match c with
      | CaseCtxDone => [EvLog LevelInfo "shutdown signal received" []]
      | CaseBgErr =>
          [EvLog LevelError "background module failed"
             [("error", LogErr ((run_tasks (bgTasks o) <$> ch) ≫= chan_recv))];
           EvCancel (WithCancel ctx)]
      end /\
    Run o ctx s =
      (Returned (shutdown o sd).1,
       record_events (shutdown o sd).2 [EvCancel (WithCancel ctx)]) /\
    app (Run o ctx s).2 = stopped_app (timeStop o) (app (entered o s)) /\
    isRunning (app (Run o ctx s).2) = false /\
    startTime (app_meta (app (Run o ctx s).2)) = timeStart o /\
    stopTime (app_meta (app (Run o ctx s).2)) = timeStop o /\
    app_registry (app (Run o ctx s).2) = lock (app_registry (app s)).
Proof.
  intros Hrun Hup Hcollect Hpick.
  pose proof (Run_started o ctx s s5 ch s6 Hrun Hup Hcollect) as Heq.
  cbv zeta in Heq. rewrite Hpick in Heq.
  destruct (started_up_app o ctx s s5 ch s6 Hup Hcollect) as [_ Happ].
  match type of Heq with
  | _ = (Returned (shutdown o ?st).1, _) => set (sd := st) in *
  end.
  assert (app (Run o ctx s).2 = stopped_app (timeStop o) (app (entered o s)))
    as Hstopped.
  { rewrite Heq. simpl.
    destruct (shutdown_spec o sd)
      as (before & evs0 & base & evs1 & after & evs2 & w' & _ & _ & _ & _ & _ &
          _ & _ & _ & _ & ->).
    simpl. subst sd. simpl. by rewrite Happ. }
  exists sd. split_and!; try (by rewrite Hstopped).
  - done.
  - subst sd. unfold record_events. simpl. by rewrite <- app_assoc.
  - exact Heq.
Qed.

(** X13: The error a background module reports makes [Run] shut down, but it
    is only logged: when the modules' [Stop] and the AfterStop hooks do not
    fail and the shutdown timer does not fire, [Run] returns nil. *)
Theorem Run_background_failure_not_returned o ctx s s5 a s6 e :
  let ms := getAll (app_registry (app s)) in
  isRunning (app s) = false ->
  started_up o ctx s s5 ->
  collectBackgroundErrors s5 = (Some a, s6) ->
  select_pick (preferBg o)
    (select_ready (ctxDone o) (Some (run_tasks (bgTasks o) a))) = Some CaseBgErr ->
  chan_recv (run_tasks (bgTasks o) a) = Some e ->
  (0 <? shutdownTimeout (app s)) = false \/ race o = StopFirst ->
  (forall m ctx w, m ∈ ms -> (Stop m ctx w).1 = None) ->
  (forall h f ctx w, h ∈ hooks (app s) -> AfterStop h = Some f ->
     (f ctx w).1 = None) ->
  (Run o ctx s).1 = Returned None /\
  EvLog LevelError "background module failed" [("error", LogErr (Some e))]
    ∈ trace (Run o ctx s).2 /\
  exists evs,
    trace (Run o ctx s).2 = trace s6 ++ evs /\ stop_calls evs = reverse ms.
Proof.
  intros ms Hrun Hup Hcollect Hpick Hrecv Hrace Hstop Hhook.
  pose proof (Run_started o ctx s s5 (Some a) s6 Hrun Hup Hcollect) as Heq.
  cbv zeta in Heq. simpl in Heq. rewrite Hpick in Heq. simpl in Heq.
  rewrite Hrecv in Heq.
  destruct (started_up_app o ctx s s5 (Some a) s6 Hup Hcollect) as [_ Happ].
  match type of Heq with
  | _ = (Returned (shutdown o ?st).1, _) => set (sd := st) in *
  end.
  assert (app sd = app (entered o s)) as Hsd by (by subst sd).
  destruct (shutdown_clean_result o sd) as (evs & w' & Hsh & Hcalls & _).
  { by rewrite Hsd. }
  { intros m c w Hm. apply Hstop. by rewrite Hsd in Hm. }
  { intros h f c w Hh. apply Hhook. by rewrite Hsd in Hh. }
  rewrite Hsd in Hcalls. simpl in Hcalls. fold ms in Hcalls.
  rewrite Heq, Hsh. simpl. split_and!; [done | |].
  - subst sd. simpl. rewrite !elem_of_app. left. left. right. left.
  - eexists. subst sd. simpl. rewrite <- !app_assoc. split; [done |].
    unfold stop_calls in *. rewrite !phase_calls_app. simpl.
    by rewrite app_nil_r.
Qed.

(** X14: A background module whose error channel is closed, or delivers nil,
    without any module reporting an error also ends the wait: when the
    receive on [merged] fires then, the channel is closed, every reader
    has finished, the value received is nil, and [Run] logs a background
    failure with a nil error and goes on to [shutdown]. *)
Theorem Run_clean_background_exit_shuts_down o ctx s s5 a s6 :
  isRunning (app s) = false ->
  started_up o ctx s s5 ->
  collectBackgroundErrors s5 = (Some a, s6) ->
  (forall m ch, m ∈ getAll (app_registry (app s)) -> Err m = Some ch ->
     clean_chan (ch (world s5)) = true) ->
  ctxDone o = false ->
  chan_ready (run_tasks (bgTasks o) a) = true ->
  closed (run_tasks (bgTasks o) a) = true /\
  Forall (fun r => r_pc r = Finished) (readers (run_tasks (bgTasks o) a)) /\
  chan_recv (run_tasks (bgTasks o) a) = None /\
  exists sd,
    world sd = world s6 /\
    trace sd =
      trace s6 ++
      [EvLog LevelInfo "application started" [];
       EvLog LevelError "background module failed" [("error", LogErr None)];
       EvCancel (WithCancel ctx)] /\
    Run o ctx s =
      (Returned (shutdown o sd).1,
       record_events (shutdown o sd).2 [EvCancel (WithCancel ctx)]).
Proof.
  intros Hrun Hup Hcollect Hclean Hdone Hready.
  destruct (started_up_app o ctx s s5 (Some a) s6 Hup Hcollect) as [Happ5 _].
  assert (merged (run_tasks (bgTasks o) a) = []) as Hempty.
  { apply (collected_clean_merged s5 a s6); [done |].
    intros m ch Hm. apply Hclean. by rewrite Happ5 in Hm. }
  assert (closed (run_tasks (bgTasks o) a) = true) as Hclosed.
  { unfold chan_ready in Hready. by rewrite Hempty in Hready. }
  split_and!.
  - done.
  - by eapply collectBackgroundErrors_closed_after_readers.
  - unfold chan_recv. by rewrite Hempty.
  - pose proof (Run_started o ctx s s5 (Some a) s6 Hrun Hup Hcollect) as Heq.
    cbv zeta in Heq. unfold select_ready in Heq. cbn [fmap option_fmap option_map] in Heq.
    rewrite Hdone, Hready in Heq. cbn [app select_pick mbind option_bind] in Heq.
    unfold chan_recv in Heq. rewrite Hempty in Heq. cbn [head] in Heq.
    eexists. split_and!; [| | exact Heq]; [done |].
    unfold record_events. simpl. by rewrite <- app_assoc.
Qed.




(** X2: What [Uptime] reads after [Run], the start-up having succeeded. While
    [Run] waits, the uptime runs with the clock from the start time [Run]
    stamped, provided no stop time is left from an earlier run: [Run] does
    not clear it, and with one left the uptime stays at the distance from
    the new start back to the old stop. Once [Run] has returned through
    [shutdown], the uptime is frozen at the distance from start to stop. *)
Theorem Uptime_of_Run o ctx s s5 ch s6 :
  isRunning (app s) = false ->
  started_up o ctx s s5 ->
  collectBackgroundErrors s5 = (ch, s6) ->
  match select_pick (preferBg o)
          (select_ready (ctxDone o) (run_tasks (bgTasks o) <$> ch)) with
  | None =>
      forall now,
        Uptime (app (Run o ctx s).2) now =
        Time_Sub (if Time_IsZero (stopTime (app_meta (app s))) then now
                  else stopTime (app_meta (app s)))
          (timeStart o)
  | Some _ =>
      timeStop o <> zeroTime ->
      forall now,
        Uptime (app (Run o ctx s).2) now = Time_Sub (timeStop o) (timeStart o)
  end.
Proof.
  intros Hrun Hup Hcollect.
  pose proof (Run_started o ctx s s5 ch s6 Hrun Hup Hcollect) as Heq.
  cbv zeta in Heq.
  destruct (started_up_app o ctx s s5 ch s6 Hup Hcollect) as [_ Happ].
  destruct (select_pick _ _) as [c|].
  - intros Hstop now. rewrite Heq. simpl.
    match goal with
    | |- context [shutdown o ?st] =>
        destruct (shutdown_spec o st)
          as (before & evs0 & base & evs1 & after & evs2 & w' & _ & _ & _ & _ &
              _ & _ & _ & _ & _ & ->)
    end.
    simpl. rewrite Happ. unfold Uptime, uptime. simpl.
    apply Z.eqb_neq in Hstop. unfold Time_IsZero. by rewrite Hstop.
  - intros now. rewrite Heq. simpl. rewrite Happ. done.
Qed.

End RunProperties.

Lemma Run_failed_startup_keeps_run_flag_witness :
  let o := mkSched 1 2 false [] false StopFirst in
  let s := sampleState [db; broken] [] 10 in
  let r := Some (Errorf "init module %q: %w" ["broken"]
                   (External "connection refused")) in
  let s' := (Run o Background s).2 in
  isRunning (app s) = false /\
  startup_fails o Background s r s' /\
  Run o Background s = (Returned r, s') /\
  isRunning (app s') = true /\
  locked (app_registry (app s')) = true /\
  forall o' ctx',
    Run o' ctx' s' = (Returned (Some ErrApplicationAlreadyRunning), s').
Proof.
  intros o s r s'.
  assert (startup_fails o Background s r s') as H.
  { apply (fails_initAll o Background s
             (Errorf "init module %q: %w" ["broken"]
                (External "connection refused"))
             (initAll (runCtx o Background s) (entered o s)).2).
    reflexivity. }
  split; [reflexivity |]. split; [exact H |].
  exact (Run_failed_startup_keeps_run_flag o Background s r s' eq_refl H).
Defined.

Lemma Run_returns_shutdown_result_witness :
  let o := mkSched 1 2 true [] false StopFirst in
  let s := sampleState [db; cache] [] 10 in
  let c := runCtx o Background s in
  let s2 := (initAll c (entered o s)).2 in
  let s3 := (runHooksBeforeStart c s2).2 in
  let s4 := (startAll c
               (record_events s3 [EvLog LevelInfo "starting modules" []])).2 in
  let s5 := (runHooksAfterStart c s4).2 in
  isRunning (app s) = false /\
  started_up o Background s s5 /\
  collectBackgroundErrors s5 = (None, s5) /\
  select_pick (preferBg o) (select_ready (ctxDone o) None) = Some CaseCtxDone /\
  (Run o Background s).1 =
    Returned (Some (Join [Errorf "stop module %q: %w" ["cache"]
                            (External "flush failed")])) /\
  isRunning (app (Run o Background s).2) = false /\
  stopTime (app_meta (app (Run o Background s).2)) = 2.
Proof.
  intros o s c s2 s3 s4 s5.
  assert (started_up o Background s s5) as Hup.
  { exists s2, s3, (Some [db; cache]), s4. split_and!; reflexivity. }
  destruct (Run_returns_shutdown_result o Background s s5 None s5 CaseCtxDone
              eq_refl Hup eq_refl eq_refl)
    as (sd & _ & _ & _ & _ & Hflag & _ & Hstop & _).
  split_and!; [reflexivity | exact Hup | reflexivity | reflexivity | reflexivity
              | exact Hflag | exact Hstop].
Defined.

Lemma Run_background_failure_not_returned_witness :
  let o := mkSched 1 2 false [TReader 0; TReader 0] false StopFirst in
  let s := sampleState [db; crasher] [] 10 in
  let c := runCtx o Background s in
  let s2 := (initAll c (entered o s)).2 in
  let s3 := (runHooksBeforeStart c s2).2 in
  let s4 := (startAll c
               (record_events s3 [EvLog LevelInfo "starting modules" []])).2 in
  let s5 := (runHooksAfterStart c s4).2 in
  let a := mkFanIn [mkReader "crasher"
                      (RecvValue (Some (External "connection lost"))) AtRecv]
             [] 1 false 1 in
  let e := Errorf "background module %q: %w" ["crasher"]
             (External "connection lost") in
  isRunning (app s) = false /\
  started_up o Background s s5 /\
  (collectBackgroundErrors s5).1 = Some a /\
  chan_recv (run_tasks (bgTasks o) a) = Some e /\
  (forall m ctx w, m ∈ [db; crasher] -> (Stop m ctx w).1 = None) /\
  (Run o Background s).1 = Returned None /\
  EvLog LevelError "background module failed" [("error", LogErr (Some e))]
    ∈ trace (Run o Background s).2.
Proof.
  intros o s c s2 s3 s4 s5 a e.
  assert (started_up o Background s s5) as Hup.
  { exists s2, s3, (Some [db; crasher]), s4. split_and!; reflexivity. }
  assert (forall (m : AppModule journal) ctx w,
            m ∈ [db; crasher] -> (Stop m ctx w).1 = None) as H1.
  { intros m ctx w Hm. apply list_elem_of_In in Hm. simpl in Hm.
    destruct Hm as [<-|[<-|[]]]; reflexivity. }
  assert (forall (h : Hook journal) f ctx w,
            h ∈ [] -> AfterStop h = Some f -> (f ctx w).1 = None) as H2.
  { intros h f ctx w Hh. apply list_elem_of_In in Hh. destruct Hh. }
  destruct (Run_background_failure_not_returned o Background s s5 a
              (collectBackgroundErrors s5).2 e
              eq_refl Hup eq_refl eq_refl eq_refl (or_intror eq_refl) H1 H2)
    as (Hres & Hlog & _).
  split_and!; [reflexivity | exact Hup | reflexivity | reflexivity | exact H1
              | exact Hres | exact Hlog].
Defined.

Lemma Run_clean_background_exit_shuts_down_witness :
  let o := mkSched 1 2 false [TReader 0; TReader 0; TCloser] false StopFirst in
  let s := sampleState [db; worker] [] 10 in
  let c := runCtx o Background s in
  let s2 := (initAll c (entered o s)).2 in
  let s3 := (runHooksBeforeStart c s2).2 in
  let s4 := (startAll c
               (record_events s3 [EvLog LevelInfo "starting modules" []])).2 in
  let s5 := (runHooksAfterStart c s4).2 in
  let a := mkFanIn [mkReader "worker" RecvClosed AtRecv] [] 1 false 1 in
  isRunning (app s) = false /\
  started_up o Background s s5 /\
  (collectBackgroundErrors s5).1 = Some a /\
  (forall m ch, m ∈ [db; worker] -> Err m = Some ch ->
     clean_chan (ch (world s5)) = true) /\
  chan_ready (run_tasks (bgTasks o) a) = true /\
  chan_recv (run_tasks (bgTasks o) a) = None /\
  EvLog LevelError "background module failed" [("error", LogErr None)]
    ∈ trace (Run o Background s).2 /\
  stop_calls (trace (Run o Background s).2) = [worker; db].
Proof.
  intros o s c s2 s3 s4 s5 a.
  assert (started_up o Background s s5) as Hup.
  { exists s2, s3, (Some [db; worker]), s4. split_and!; reflexivity. }
  assert (forall (m : AppModule journal) ch, m ∈ [db; worker] ->
            Err m = Some ch -> clean_chan (ch (world s5)) = true) as H1.
  { intros m ch Hm Hch. apply list_elem_of_In in Hm. simpl in Hm.
    destruct Hm as [<-|[<-|[]]]; inversion Hch; reflexivity. }
  destruct (Run_clean_background_exit_shuts_down o Background s s5 a
              (collectBackgroundErrors s5).2
              eq_refl Hup eq_refl H1 eq_refl eq_refl)
    as (_ & _ & Hrecv & _).
  split_and!; [reflexivity | exact Hup | reflexivity | exact H1 | reflexivity
              | exact Hrecv | | reflexivity].
  apply list_elem_of_In. vm_compute.
  repeat first [left; reflexivity | right].
Defined.


Lemma fanin_send_never_blocks_witness :
  let s := sampleState [crasher; db; worker] [] 10 in
  let a := mkFanIn [mkReader "crasher"
                      (RecvValue (Some (External "connection lost"))) AtRecv;
                    mkReader "worker" RecvClosed AtRecv]
             [] 2 false 2 in
  let a' := run_tasks [TReader 1; TReader 0] a in
  (collectBackgroundErrors s).1 = Some a /\
  capacity a' = 2%nat /\
  (length (merged a') <= capacity a')%nat /\
  merged (step_reader 0 a') =
    [Errorf "background module %q: %w" ["crasher"] (External "connection lost")].
Proof.
  intros s a a'.
  destruct (fanin_send_never_blocks s a (collectBackgroundErrors s).2
              [TReader 1; TReader 0] eq_refl)
    as (Hcap & Hle & Hsend).
  destruct (Hsend 0%nat
              (mkReader "crasher" (RecvValue (Some (External "connection lost")))
                 (AtSend (Errorf "background module %q: %w" ["crasher"]
                            (External "connection lost"))))
              (Errorf "background module %q: %w" ["crasher"]
                 (External "connection lost")) eq_refl eq_refl)
    as (_ & Hm & _).
  split_and!; [reflexivity | exact Hcap | exact Hle | exact Hm].
Defined.

Lemma fanin_errors_come_from_modules_witness :
  let s := sampleState [crasher; db] [] 10 in
  let a := mkFanIn [mkReader "crasher"
                      (RecvValue (Some (External "connection lost"))) AtRecv]
             [] 1 false 1 in
  let e := Errorf "background module %q: %w" ["crasher"]
             (External "connection lost") in
  (collectBackgroundErrors s).1 = Some a /\
  e ∈ merged (run_tasks [TReader 0; TReader 0] a) /\
  exists m ch v,
    m ∈ [crasher; db] /\ Err m = Some ch /\
    ch [] = RecvValue (Some v) /\
    e = Errorf "background module %q: %w" [Name m] v.
Proof.
  intros s a e.
  assert (e ∈ merged (run_tasks [TReader 0; TReader 0] a)) as He by left.
  split_and!; [reflexivity | exact He |].
  exact (fanin_errors_come_from_modules s a (collectBackgroundErrors s).2
           [TReader 0; TReader 0] e eq_refl He).
Defined.

(** ** Context metadata, once more *)

(** Enriching a context hides none of the values the caller stored under
    its own keys. *)
Lemma Value_enrichContext_foreign (m : meta) (ctx : Ctx) (id : string) :
  Value (enrichContext m ctx) (foreignKey id) = Value ctx (foreignKey id).
Proof. done. Qed.

(** X1: The metadata [enrichContext] stores travels with the context: every
    context derived from the enriched one by cancellation, deadline or the
    user's own values still yields the application's name, version,
    environment and start time, and the values the parent context held
    under other keys stay readable through the enriched one. *)
Theorem metadata_survives_derivation (m : meta) (ctx c : Ctx) :
  derived_from (enrichContext m ctx) c ->
  NameFromContext c = name m /\
  VersionFromContext c = version m /\
  EnvironmentFromContext c = environment m /\
  StartTimeFromContext c = startTime m /\
  forall id, Value (enrichContext m ctx) (foreignKey id) =
             Value ctx (foreignKey id).
Proof.
  intros H. split_and!; [| | | | by intros id].
  all: unfold NameFromContext, VersionFromContext, EnvironmentFromContext,
         StartTimeFromContext.
  all: induction H as [|c _ IH|c d _ IH|c id v _ IH]; simpl; try done.
Qed.

Lemma metadata_survives_derivation_witness :
  let m := mkMeta "demo" "1.0.0" "test" 7 0 in
  let base := WithValue Background (foreignKey "request-id") (AnyString "42") in
  let c := WithValue (WithTimeout (WithCancel (enrichContext m base)) 5)
             (foreignKey "trace-id") (AnyString "abc") in
  derived_from (enrichContext m base) c /\
  NameFromContext c = "demo" /\
  StartTimeFromContext c = 7 /\
  Value c (foreignKey "request-id") = Some (AnyString "42").
Proof.
  intros m base c.
  assert (derived_from (enrichContext m base) c) as H
    by (apply derived_value, derived_timeout, derived_cancel, derived_base).
  destruct (metadata_survives_derivation m base c H) as (Hn & _ & _ & Ht & _).
  split_and!; [exact H | exact Hn | exact Ht | reflexivity].
Defined.


Lemma Uptime_of_Run_witness :
  let o := mkSched 1 2 true [] false StopFirst in
  let s := sampleState [db] [] 10 in
  let c := runCtx o Background s in
  let s2 := (initAll c (entered o s)).2 in
  let s3 := (runHooksBeforeStart c s2).2 in
  let s4 := (startAll c
               (record_events s3 [EvLog LevelInfo "starting modules" []])).2 in
  let s5 := (runHooksAfterStart c s4).2 in
  isRunning (app s) = false /\
  started_up o Background s s5 /\
  collectBackgroundErrors s5 = (None, s5) /\
  timeStop o <> zeroTime /\
  forall now, Uptime (app (Run o Background s).2) now = 1.
Proof.
  intros o s c s2 s3 s4 s5.
  assert (started_up o Background s s5) as Hup.
  { exists s2, s3, (Some [db]), s4. split_and!; reflexivity. }
  assert (timeStop o <> zeroTime) as Hstop by (simpl; unfold zeroTime; lia).
  split_and!; [reflexivity | exact Hup | reflexivity | exact Hstop |].
  intros now.
  exact (Uptime_of_Run o Background s s5 None s5 eq_refl Hup eq_refl Hstop now).
Defined.

(** ** Registering in batches *)

Section RegistryBatches.

Context {W : Type}.

Implicit Types (r : registry W) (m : AppModule W) (ms : list (AppModule W)).

Lemma register_all_snoc r ms m :
  register_all r (ms ++ [m]) = (register (register_all r ms) m).2.
Proof. unfold register_all. by rewrite foldl_app. Qed.

(** X3: Registration keeps the order: modules with distinct, non-empty names
    that are new to an open registry are all accepted, and the snapshot
    is the old one followed by them in the order they were registered. *)
Theorem register_all_keeps_order r ms :
  registry_reachable r ->
  locked r = false ->
  NoDup (Name <$> (getAll r ++ ms)) ->
  "" ∉ (Name <$> ms) ->
  getAll (register_all r ms) = getAll r ++ ms /\
  locked (register_all r ms) = false /\
  forall pre m post, ms = pre ++ m :: post ->
    (register (register_all r pre) m).1 = None.
Proof.
  intros Hreach Hl Hnd Hne.
  assert (forall pre post, ms = pre ++ post ->
            getAll (register_all r pre) = getAll r ++ pre /\
            locked (register_all r pre) = false /\
            registry_wf (register_all r pre)) as Hpre.
  { intros pre. induction pre as [|m pre IH] using rev_ind; intros post Hms.
    - simpl. rewrite app_nil_r. split_and!; [done | done | by apply reachable_wf].
    - rewrite <- app_assoc in Hms.
      destruct (IH _ Hms) as (Hall & Hlock & Hwf).
      rewrite register_all_snoc.
      assert (Name m <> "") as Hm.
      { intros Hm. apply Hne. rewrite Hms, fmap_app, elem_of_app. right.
        simpl. rewrite <- Hm. left. }
      assert (Name m ∉ names (register_all r pre)) as Hfresh.
      { rewrite (registry_wf_names _ m Hwf), Hall.
        rewrite Hms, app_assoc, fmap_app in Hnd.
        apply NoDup_app in Hnd as (_ & Hnd & _). intros Hin.
        apply (Hnd (Name m) Hin). simpl. left. }
      rewrite (register_fresh _ m Hlock Hm Hfresh). simpl.
      split_and!; [| done |].
      + unfold getAll in *. rewrite Hall. by rewrite app_assoc.
      + pose proof (register_preserves_wf _ m Hwf) as Hwf'.
        by rewrite (register_fresh _ m Hlock Hm Hfresh) in Hwf'. }
  destruct (Hpre ms [] ltac:(by rewrite app_nil_r)) as (Hall & Hlock & _).
  split_and!; [done | done |].
  intros pre m post Hms.
  destruct (Hpre (pre ++ [m]) post ltac:(by rewrite <- app_assoc)) as (H1 & _ & _).
  destruct (Hpre pre (m :: post) Hms) as (H2 & Hl2 & Hwf2).
  rewrite register_all_snoc in H1.
  unfold register in *. rewrite Hl2 in *.
  destruct (decide (Name m = "")) as [|_].
  { simpl in H1. unfold getAll in *. rewrite H2 in H1.
    apply (f_equal length) in H1. rewrite !length_app in H1. simpl in H1. lia. }
  destruct (decide (Name m ∈ names (register_all r pre))) as [|_]; [| done].
  simpl in H1. unfold getAll in *. rewrite H2 in H1.
  apply (f_equal length) in H1. rewrite !length_app in H1. simpl in H1. lia.
Qed.

(** The lock is permanent: on a locked registry no sequence of
    registrations changes anything, each one being refused with
    [ErrRegistrationClosed]; locking twice is locking once. *)
Lemma lock_is_permanent r ms :
  register_all (lock r) ms = lock r /\
  Forall (fun m => register (lock r) m = (Some ErrRegistrationClosed, lock r)) ms /\
  getAll (register_all (lock r) ms) = getAll r /\
  lock (lock r) = lock r.
Proof.
  assert (register_all (lock r) ms = lock r) as H.
  { induction ms as [|m ms IH]; [done |]. by simpl. }
  split_and!; [done | | by rewrite H | done].
  by apply Forall_forall.
Qed.

End RegistryBatches.

Lemma register_all_keeps_order_witness :
  let r := (register newRegistry db).2 in
  registry_reachable r /\
  locked r = false /\
  NoDup (Name <$> (getAll r ++ [cache; http])) /\
  ("" ∉ (Name <$> [cache; http])) /\
  getAll (register_all r [cache; http]) = [db; cache; http].
Proof.
  intros r.
  assert (registry_reachable r) as H1
    by (apply reach_register; apply reach_new).
  assert (NoDup (Name <$> (getAll r ++ [cache; http]))) as H2.
  { match goal with |- ?P => apply (bool_decide_unpack P) end.
    vm_compute. exact I. }
  assert ("" ∉ (Name <$> [cache; http])) as H3.
  { match goal with |- ?P => apply (bool_decide_unpack P) end.
    vm_compute. exact I. }
  destruct (register_all_keeps_order r [cache; http] H1 eq_refl H2 H3)
    as (Hall & _).
  split_and!; [exact H1 | reflexivity | exact H2 | exact H3 | exact Hall].
Defined.

(** ** Options and [New] *)

Section NewProperties.

Context {W : Type}.

Implicit Types (a : Application W) (opt : Option W) (opts : list (Option W)).

Lemma pkg_option_step opt a :
  pkg_option opt -> fresh_application a ->
  (exists e, opt a = (Some e, a) /\ rejected opt e) \/
  (exists a', opt a = (None, a') /\ fresh_application a' /\
              forall e, ~ rejected opt e).
Proof.
  intros Hopt (Hreg & Hrun & Hstart & Hstop & Ht).
  destruct Hopt as [n|v|e|t|h].
  - assert (WithName n a =
            if decide (n = "") then (Some ErrAppNameEmpty, a)
            else (None,
                  mkApplication
                    (mkMeta n (version (app_meta a)) (environment (app_meta a))
                       (startTime (app_meta a)) (stopTime (app_meta a)))
                    (app_registry a) (hooks a) (isRunning a)
                    (shutdownTimeout a))) as -> by done.
    destruct (decide (n = "")) as [->|Hn].
    + left. exists ErrAppNameEmpty. split; [done |]. by left.
    + right. eexists. split; [done |]. split; [done |].
      intros e [[Heq _]|(t & Hneg & Heq & _)].
      * apply (f_equal (fun f => (f a).1)) in Heq. simpl in Heq.
        unfold WithName in Heq. by destruct (decide (n = "")).
      * apply (f_equal (fun f => (f a).1)) in Heq. simpl in Heq.
        unfold WithName, WithGracefulTimeout in Heq.
        destruct (decide (n = "")); [done |].
        destruct (t <? 0) eqn:Hlt; [done |]. apply Z.ltb_ge in Hlt. lia.
  - right. eexists. split; [done |]. split; [done |].
    intros e' [[Heq _]|(t & Hlt & Heq & _)].
    + by apply (f_equal (fun f => (f a).1)) in Heq.
    + apply (f_equal (fun f => (f a).1)) in Heq. simpl in Heq.
      unfold WithGracefulTimeout in Heq. apply Z.ltb_lt in Hlt.
      by rewrite Hlt in Heq.
  - right. eexists. split; [done |]. split; [done |].
    intros e' [[Heq _]|(t & Hlt & Heq & _)].
    + by apply (f_equal (fun f => (f a).1)) in Heq.
    + apply (f_equal (fun f => (f a).1)) in Heq. simpl in Heq.
      unfold WithGracefulTimeout in Heq. apply Z.ltb_lt in Hlt.
      by rewrite Hlt in Heq.
  - assert (WithGracefulTimeout t a =
            if t <? 0 then (Some ErrShutdownTimeoutNonPositive, a)
            else (None, mkApplication (app_meta a) (app_registry a) (hooks a)
                          (isRunning a) t)) as -> by done.
    destruct (t <? 0) eqn:Hlt.
    + left. exists ErrShutdownTimeoutNonPositive. split; [done |].
      right. exists t. apply Z.ltb_lt in Hlt. by split_and!.
    + right. eexists. split; [done |]. apply Z.ltb_ge in Hlt.
      split; [done |].
      intros e [[Heq _]|(t' & Hlt' & Heq & _)].
      * apply (f_equal (fun f => (f a).1)) in Heq. simpl in Heq.
        unfold WithGracefulTimeout in Heq.
        destruct (t <? 0) eqn:Hlt2; [apply Z.ltb_lt in Hlt2; lia | done].
      * apply (f_equal (fun f => (f a).1)) in Heq. simpl in Heq.
        unfold WithGracefulTimeout in Heq.
        destruct (t <? 0) eqn:Hlt2; [apply Z.ltb_lt in Hlt2; lia |].
        apply Z.ltb_lt in Hlt'. by rewrite Hlt' in Heq.
  - right. eexists. split; [done |]. split; [done |].
    intros e' [[Heq _]|(t & Hlt & Heq & _)].
    + by apply (f_equal (fun f => (f a).1)) in Heq.
    + apply (f_equal (fun f => (f a).1)) in Heq. simpl in Heq.
      unfold WithGracefulTimeout in Heq. apply Z.ltb_lt in Hlt.
      by rewrite Hlt in Heq.
Qed.

Lemma New_range_spec opts a :
  Forall pkg_option opts -> fresh_application a ->
  match New_range opts a with
  | inl err =>
      exists pre opt post e,
        opts = pre ++ opt :: post /\
        rejected opt e /\
        (forall o e', o ∈ pre -> ~ rejected o e') /\
        err = Errorf "apply option: %w" [] e
  | inr a' =>
      fresh_application a' /\ forall o e', o ∈ opts -> ~ rejected o e'
  end.
Proof.
  intros Hopts. revert a.
  induction Hopts as [|opt opts Hopt _ IH]; intros a Ha; simpl.
  - split; [done |]. intros o e' Ho. by apply not_elem_of_nil in Ho.
  - destruct (pkg_option_step opt a Hopt Ha)
      as [(e & -> & Hrej)|(a' & -> & Ha' & Hok)].
    + exists [], opt, opts, e. split_and!; [done | done | | done].
      intros o e' Ho. by apply not_elem_of_nil in Ho.
    + specialize (IH a' Ha').
      destruct (New_range opts a') as [err|a''].
      * destruct IH as (pre & opt' & post & e & -> & Hrej & Hpre & ->).
        exists (opt :: pre), opt', post, e. split_and!; [done | done | | done].
        intros o e' [->|Ho]%elem_of_cons; [apply Hok | by apply Hpre].
      * destruct IH as [Ha'' Hall]. split; [done |].
        intros o e' [->|Ho]%elem_of_cons; [apply Hok | by apply Hall].
Qed.

(** X4: [New] with options of the package fails exactly when one of them is
    an empty name or a negative timeout: the error wraps the sentinel of
    the first such option, so that [errors.Is] finds it. Otherwise the
    application it returns is not running, holds an empty, open registry,
    has no start or stop time, and its graceful timeout is not negative
    (zero is accepted: it turns the timeout off). *)
Theorem New_result opts :
  Forall pkg_option opts ->
  match New opts with
  | inl err =>
      exists pre opt post e,
        opts = pre ++ opt :: post /\
        rejected opt e /\
        (forall o e', o ∈ pre -> ~ rejected o e') /\
        err = Errorf "apply option: %w" [] e /\
        errors_Is err e = true
  | inr a =>
      (forall o e', o ∈ opts -> ~ rejected o e') /\
      app_registry a = newRegistry /\
      isRunning a = false /\
      startTime (app_meta a) = zeroTime /\
      stopTime (app_meta a) = zeroTime /\
      0 <= shutdownTimeout a
  end.
Proof.
  intros Hopts.
  pose proof (New_range_spec opts
                (mkApplication (mkMeta "" "" "" zeroTime zeroTime) newRegistry []
                   false (10 * Second)) Hopts) as H.
  unfold New.
  destruct (New_range opts _) as [err|a].
  - destruct H as (pre & opt & post & e & Hsplit & Hrej & Hpre & ->).
    { unfold fresh_application, Second. simpl. split_and!; try done. }
    exists pre, opt, post, e. split_and!; try done.
    destruct Hrej as [[_ ->]|(t & _ & _ & ->)]; done.
  - destruct H as ((H1 & H2 & H3 & H4 & H5) & Hall).
    { unfold fresh_application, Second. simpl. split_and!; try done. }
    split_and!; done.
Qed.


End NewProperties.

Lemma New_result_witness :
  let opts : list (Option journal) :=
    [WithName "demo"; WithGracefulTimeout (-1); WithName ""] in
  Forall pkg_option opts /\
  New opts = inl (Errorf "apply option: %w" [] ErrShutdownTimeoutNonPositive) /\
  exists pre opt post e,
    opts = pre ++ opt :: post /\
    rejected opt e /\
    errors_Is (Errorf "apply option: %w" [] ErrShutdownTimeoutNonPositive) e = true.
Proof.
  intros opts.
  assert (Forall pkg_option opts) as H by (repeat constructor).
  split; [exact H |]. split; [reflexivity |].
  pose proof (New_result opts H) as Hres.
  change (New opts) with
    (@inl error (Application journal)
       (Errorf "apply option: %w" [] ErrShutdownTimeoutNonPositive)) in Hres.
  destruct Hres as (pre & opt & post & e & Hsplit & Hrej & _ & Heq & His).
  exists pre, opt, post, e. split; [exact Hsplit |]. split; [exact Hrej |].
  exact His.
Defined.


(** ** Health *)

Section HealthProperties.

Context {W : Type}.

Implicit Types (m : AppModule W) (ms : list (AppModule W)) (s : State W).



End HealthProperties.

(** ** Hooks *)

Section HookProperties.

Context {W : Type}.

Implicit Types (h : Hook W) (hs : list (Hook W)) (s : State W).

Lemma hook_calls_app (evs1 evs2 : list (Event W)) :
  hook_calls (evs1 ++ evs2) = hook_calls evs1 ++ hook_calls evs2.
Proof. apply omap_app. Qed.

Lemma runHooks_range_ok k sel ctx hs w w' :
  hooks_succeed sel ctx hs w w' ->
  forall s, world s = w ->
    exists evs,
      runHooks_range k sel ctx hs s = (None, mkState w' (trace s ++ evs) (app s)) /\
      hook_calls evs = (fun _ => (k, ctx, None)) <$> omap sel hs /\
      (forall p, phase_calls p evs = []).
Proof.
  induction 1 as [w|h hs w w' Hsel _ IH|h hs f w w1 w' Hsel Hf _ IH];
    intros s Hs.
  - exists []. simpl. rewrite app_nil_r. unfold ret. by destruct s; simplify_eq/=.
  - simpl. rewrite Hsel. destruct (IH s Hs) as (evs & Heq & Hcalls & Hq).
    exists evs. by rewrite Heq.
  - simpl. rewrite Hsel. unfold bind, call. simpl. rewrite Hs, Hf.
    destruct (IH (mkState w1 (trace s ++ [EvHook k ctx None]) (app s)) eq_refl)
      as (evs & Heq & Hcalls & Hq).
    exists ([EvHook k ctx None] ++ evs). rewrite Heq. simpl.
    rewrite <- app_assoc. split_and!; [done | by rewrite Hcalls |].
    intros p. destruct p; exact (Hq _).
Qed.

(** X7: The hooks of one kind run in the order they were added; a hook
    without the callback is skipped; the first callback that fails ends
    the run: its error is returned as it is, and no later hook is
    called. *)
Theorem runHooks_stop_at_first_failure k sel ctx pre h post f e s w1 w2 :
  hooks_succeed sel ctx pre (world s) w1 ->
  sel h = Some f ->
  f ctx w1 = (Some e, w2) ->
  exists evs,
    runHooks_range k sel ctx (pre ++ h :: post) s =
      (Some e, mkState w2 (trace s ++ evs) (app s)) /\
    hook_calls evs =
      ((fun _ => (k, ctx, None)) <$> omap sel pre) ++ [(k, ctx, Some e)] /\
    (forall p, phase_calls p evs = []).
Proof.
  intros Hpre Hsel Hf.
  assert (forall s0, world s0 = world s ->
            exists evs,
              runHooks_range k sel ctx (pre ++ h :: post) s0 =
                (Some e, mkState w2 (trace s0 ++ evs) (app s0)) /\
              hook_calls evs =
                ((fun _ => (k, ctx, None)) <$> omap sel pre) ++ [(k, ctx, Some e)] /\
              (forall p, phase_calls p evs = [])) as Hrun.
  { induction Hpre as [w|h0 hs w w' Hsel0 _ IH|h0 hs f0 w w1' w' Hsel0 Hf0 _ IH];
      intros s0 Hs0.
    - simpl. rewrite Hsel. unfold bind, call. simpl. rewrite Hs0, Hf.
      exists [EvHook k ctx (Some e)]. split_and!; [done | done | by intros []].
    - simpl. rewrite Hsel0. by apply IH.
    - simpl. rewrite Hsel0. unfold bind, call. simpl. rewrite Hs0, Hf0.
      destruct (IH Hf (mkState w1' (trace s0 ++ [EvHook k ctx None]) (app s0))
                  eq_refl) as (evs & Heq & Hcalls & Hq).
      exists ([EvHook k ctx None] ++ evs). rewrite Heq. simpl.
      rewrite <- app_assoc. split_and!; [done | by rewrite Hcalls |].
      intros p. destruct p; exact (Hq _). }
  exact (Hrun s eq_refl).
Qed.

End HookProperties.

Lemma runHooks_stop_at_first_failure_witness :
  let s := sampleState [db] [drainFails; notReady; warmupFails; notReady] 10 in
  hooks_succeed BeforeStart Background [drainFails] (world s) [] /\
  BeforeStart notReady =
    Some (noting "hook.BeforeStart" (Some (External "not ready"))) /\
  exists evs,
    runHooks_range KBeforeStart BeforeStart Background
      ([drainFails] ++ notReady :: [warmupFails; notReady]) s =
      (Some (External "not ready"),
       mkState ["hook.BeforeStart"] (trace s ++ evs) (app s)) /\
    hook_calls evs = [(KBeforeStart, Background, Some (External "not ready"))].
Proof.
  intros s.
  assert (hooks_succeed BeforeStart Background [drainFails] (world s) []) as H
    by (apply hooks_succeed_skip; [reflexivity | apply hooks_succeed_nil]).
  split; [exact H |]. split; [reflexivity |].
  destruct (runHooks_stop_at_first_failure KBeforeStart BeforeStart Background
              [drainFails] notReady [warmupFails; notReady]
              (noting "hook.BeforeStart" (Some (External "not ready")))
              (External "not ready") s [] ["hook.BeforeStart"]
              H eq_refl eq_refl) as (evs & Heq & Hcalls & _).
  exists evs. split; [exact Heq | exact Hcalls].
Defined.

(** ** The lifecycle discipline of [Run] *)

Section LifecycleProperties.

Context {W : Type}.

Implicit Types (m : AppModule W) (ms : list (AppModule W)) (s : State W)
  (evs : list (Event W)) (o : Sched).

Lemma lifecycle_calls_app evs1 evs2 :
  lifecycle_calls (evs1 ++ evs2) = lifecycle_calls evs1 ++ lifecycle_calls evs2.
Proof. apply omap_app. Qed.

Lemma started_ok_app evs1 evs2 :
  started_ok (evs1 ++ evs2) = started_ok evs1 ++ started_ok evs2.
Proof. unfold started_ok. by rewrite phase_calls_app, omap_app. Qed.

(** Events that are no lifecycle call. *)
Lemma silent_lifecycle evs :
  (forall p, phase_calls p evs = []) -> lifecycle_calls evs = [].
Proof.
  intros H. induction evs as [|e evs IH]; [done |].
  assert (forall p, phase_calls p evs = []) as H'.
  { intros p. specialize (H p). unfold phase_calls in *. simpl in H.
    by destruct (phase_call p e). }
  destruct e; simpl; try (by apply IH).
  - by specialize (H PInit).
  - by specialize (H PStart).
  - by specialize (H PStop).
Qed.

Lemma silent_started_ok evs :
  (forall p, phase_calls p evs = []) -> started_ok evs = [].
Proof. intros H. unfold started_ok. by rewrite H. Qed.

Lemma only_init_order evs :
  phase_calls PStart evs = [] -> phase_calls PStop evs = [] ->
  in_lifecycle_order evs.
Proof.
  unfold in_lifecycle_order, init_calls, start_calls, stop_calls.
  intros H1 H2. rewrite H1, H2. simpl. rewrite app_nil_r.
  induction evs as [|e evs IH]; [done |].
  destruct e; simpl in *; try (by apply IH); try done.
  csimpl. f_equal. by apply IH.
Qed.

Lemma only_stop_order evs :
  phase_calls PInit evs = [] -> phase_calls PStart evs = [] ->
  in_lifecycle_order evs.
Proof.
  unfold in_lifecycle_order, init_calls, start_calls, stop_calls.
  intros H1 H2. rewrite H1, H2. simpl.
  induction evs as [|e evs IH]; [done |].
  destruct e; simpl in *; try (by apply IH); try done.
  csimpl. f_equal. by apply IH.
Qed.

Lemma only_start_order evs :
  phase_calls PInit evs = [] -> phase_calls PStop evs = [] ->
  in_lifecycle_order evs.
Proof.
  unfold in_lifecycle_order, init_calls, start_calls, stop_calls.
  intros H1 H2. rewrite H1, H2. simpl. rewrite app_nil_r.
  induction evs as [|e evs IH]; [done |].
  destruct e; simpl in *; try (by apply IH); try done.
  csimpl. f_equal. by apply IH.
Qed.

(** Lifecycle order composes when the second trace has no [Init] call
    and either it has no [Start] call or the first has no [Stop] call. *)
Lemma in_lifecycle_order_app evs1 evs2 :
  in_lifecycle_order evs1 -> in_lifecycle_order evs2 ->
  phase_calls PInit evs2 = [] ->
  phase_calls PStart evs2 = [] \/ phase_calls PStop evs1 = [] ->
  in_lifecycle_order (evs1 ++ evs2).
Proof.
  unfold in_lifecycle_order, init_calls, start_calls, stop_calls.
  intros H1 H2 Hi Hor. rewrite lifecycle_calls_app, !phase_calls_app, H1, H2, Hi.
  rewrite !fmap_app. simpl. rewrite app_nil_r.
  destruct Hor as [-> | ->]; simpl; by rewrite ?app_nil_r, <- ?app_assoc.
Qed.

Lemma initAll_range_frame ctx ms :
  forall s, exists r evs w',
    initAll_range ctx ms s = (r, mkState w' (trace s ++ evs) (app s)) /\
    Forall (fun c => c.1.2 = ctx) (phase_calls PInit evs) /\
    phase_calls PStart evs = [] /\
    phase_calls PStop evs = [] /\
    init_calls evs `prefix_of` ms /\
    (r = None -> init_calls evs = ms).
Proof.
  induction ms as [|m ms IH]; intros s.
  - exists None, [], (world s). simpl. rewrite app_nil_r.
    split_and!; [by destruct s | constructor | done | done | done | done].
  - simpl. unfold bind, logInfo, emit, callInit, call. simpl.
    destruct (Init m ctx (world s)) as [[e|] w1]; simpl.
    + eexists _, [_; EvInit m ctx (Some e)], _.
      rewrite <- app_assoc. simpl.
      split_and!; [done | by repeat constructor | done | done | | done].
      by exists ms.
    + destruct (IH (mkState w1 ((trace s ++ [EvLog LevelInfo "initializing module"
                                      [("module", LogString (Name m))]]) ++
                                  [EvInit m ctx None]) (app s)))
        as (r & evs & w' & Heq & Hctx & Hst & Hsp & Hpre & Hall).
      exists r, ([EvLog LevelInfo "initializing module"
                    [("module", LogString (Name m))];
                  EvInit m ctx None] ++ evs), w'.
      rewrite Heq. simpl. rewrite <- !app_assoc. simpl.
      split_and!; [done | by constructor | done | done | |].
      * unfold init_calls in *. csimpl. by apply prefix_cons.
      * intros Hr. unfold init_calls in *. csimpl. f_equal. by apply Hall.
Qed.

Lemma startAll_range_frame ctx ms :
  forall started s, exists res evs w',
    startAll_range ctx ms started s = (res, mkState w' (trace s ++ evs) (app s)) /\
    phase_calls PInit evs = [] /\
    Forall (fun c => c.1.2 = ctx) (phase_calls PStart evs) /\
    Forall (fun c => c.1.2 = Background) (phase_calls PStop evs) /\
    start_calls evs `prefix_of` ms /\
    in_lifecycle_order evs /\
    match res.2 with
    | None =>
        res.1 = Some (started ++ ms) /\ start_calls evs = ms /\
        started_ok evs = ms /\ stop_calls evs = []
    | Some _ =>
        res.1 = None /\ stop_calls evs = reverse (started ++ started_ok evs)
    end.
Proof.
  induction ms as [|m ms IH]; intros started s.
  - exists (Some started, None), [], (world s). simpl. rewrite !app_nil_r.
    split_and!; [by destruct s | done | constructor | constructor | done
                | done | done | done | done | done].
  - simpl. unfold bind, logInfo, emit, callStart, call. simpl.
    destruct (Start m ctx (world s)) as [[e|] w1]; simpl.
    + match goal with
      | |- context [shutdownModules ?c ?l ?st] =>
          destruct (shutdownModules_spec c l st)
            as (evs & Heq & Hcalls & Hctx & Hi & Hst & _)
      end.
      rewrite Heq. simpl.
      eexists _, ([EvLog LevelInfo "starting module"
                     [("module", LogString (Name m))];
                   EvStart m ctx (Some e)] ++ evs), _.
      rewrite <- !app_assoc. simpl.
      split_and!; [done | done | | done | | |].
      * rewrite Hst. by repeat constructor.
      * unfold start_calls. simpl. rewrite Hst. simpl. by apply prefix_cons, prefix_nil.
      * apply (in_lifecycle_order_app
                 [EvLog LevelInfo "starting module" [("module", LogString (Name m))];
                  EvStart m ctx (Some e)] evs);
          [by apply only_start_order | by apply only_stop_order | done | by left].
      * split; [done |]. unfold started_ok, stop_calls in *. simpl.
        rewrite Hst. simpl. by rewrite app_nil_r.
    + destruct (IH (started ++ [m])
                  (mkState w1 ((trace s ++ [EvLog LevelInfo "starting module"
                                     [("module", LogString (Name m))]]) ++
                                 [EvStart m ctx None]) (app s)))
        as (res & evs & w' & Heq & Hi & Hctx & Hbg & Hpre & Hord & Hres).
      exists res, ([EvLog LevelInfo "starting module"
                      [("module", LogString (Name m))];
                    EvStart m ctx None] ++ evs), w'.
      rewrite Heq. simpl. rewrite <- !app_assoc. simpl.
      split_and!; [done | done | by constructor | done | | |].
      * unfold start_calls in *. csimpl. by apply prefix_cons.
      * apply (in_lifecycle_order_app
                 [EvLog LevelInfo "starting module" [("module", LogString (Name m))];
                  EvStart m ctx None] evs);
          [by apply only_start_order | done | done | by right].
      * destruct (res.2); unfold started_ok, start_calls, stop_calls in *; csimpl.
        -- destruct Hres as [H1 H2]. split; [done |].
           by rewrite H2, <- app_assoc.
        -- destruct Hres as (H1 & H2 & H3 & H4).
           rewrite <- app_assoc in H1. by rewrite H1, H2, H3, H4.
Qed.

Lemma discipline_compose c ms T (A B C evs : list (Event W)) :
  evs = A ++ B ++ C ->
  phase_calls PStart A = [] -> phase_calls PStop A = [] ->
  Forall (fun x => x.1.2 = c) (phase_calls PInit A) ->
  init_calls A `prefix_of` ms ->
  phase_calls PInit B = [] ->
  Forall (fun x => x.1.2 = c) (phase_calls PStart B) ->
  Forall (fun x => x.1.2 = Background) (phase_calls PStop B) ->
  start_calls B `prefix_of` ms ->
  in_lifecycle_order B ->
  stop_calls B `prefix_of` reverse (started_ok B) ->
  phase_calls PInit C = [] -> phase_calls PStart C = [] ->
  Forall (fun x => x.1.2 = Background \/ x.1.2 = WithTimeout Background T)
    (phase_calls PStop C) ->
  (start_calls B <> [] -> init_calls A = ms) ->
  (stop_calls C <> [] ->
   stop_calls B = [] /\ stop_calls C `prefix_of` reverse (started_ok B)) ->
  lifecycle_discipline c ms T evs.
Proof.
  intros -> HA1 HA2 HA3 HA4 HB1 HB2 HB3 HB4 HB5 HB6 HC1 HC2 HC3 HAB HBC.
  unfold lifecycle_discipline, init_calls, start_calls, stop_calls, started_ok
    in *.
  rewrite !phase_calls_app, HA1, HA2, HB1, HC1, HC2. simpl.
  rewrite !app_nil_r. split_and!; try done.
  - apply Forall_app. split; [| done].
    eapply Forall_impl; [exact HB3 |]. intros x Hx. by left.
  - rewrite fmap_app.
    destruct (phase_calls PStop C) as [|x xs] eqn:HC.
    + by rewrite app_nil_r.
    + destruct HBC as [HB0 Hpre]; [done |].
      apply fmap_nil_inv in HB0. by rewrite HB0.
  - apply in_lifecycle_order_app;
      [by apply only_init_order | | by rewrite phase_calls_app, HB1, HC1
      | by right].
    apply in_lifecycle_order_app;
      [done | by apply only_stop_order | done | by left].
Qed.

Ltac calls :=
  unfold init_calls, start_calls, stop_calls, started_ok;
  rewrite ?phase_calls_app;
  repeat match goal with
         | H : phase_calls _ _ = [] |- _ => rewrite H
         | H : forall p, phase_calls p _ = [] |- _ => rewrite H
         end;
  simpl; rewrite ?app_nil_r.

Ltac fin :=
  try done; try (by calls); try (by apply prefix_nil);
  try (by calls; apply prefix_nil); try (by calls; constructor).

(** X9: Whatever a call of [Run] comes to, the lifecycle calls it has made
    keep the discipline: [Init] and [Start] under the run context and in
    registration order, no [Start] before every module is initialised,
    [Stop] under a context of its own and only for modules whose [Start]
    returned nil, last started first, and the three phases one after the
    other. *)
Theorem Run_lifecycle_discipline o ctx s :
  isRunning (app s) = false ->
  exists evs,
    trace (Run o ctx s).2 = trace s ++ evs /\
    lifecycle_discipline (runCtx o ctx s) (getAll (app_registry (app s)))
      (shutdownTimeout (app s)) evs.
Proof.
  intros Hrun.
  set (c := runCtx o ctx s).
  set (ms := getAll (app_registry (app s))).
  set (T := shutdownTimeout (app s)).
  set (e0 := [EvGo "setupSignalHandler";
              EvLog LevelInfo "initializing modules" []] : list (Event W)).
  assert (forall p, phase_calls p e0 = []) as He0 by (by intros []).
  set (cancel := [EvCancel (WithCancel ctx)] : list (Event W)).
  assert (forall p, phase_calls p cancel = []) as Hcancel by (by intros []).
  destruct (initAll_range_frame c ms (entered o s))
    as (r1 & evsI & w1 & HeqI & HI1 & HI2 & HI3 & HI4 & HI5).
  assert (initAll c (entered o s) =
            (r1, mkState w1 (trace (entered o s) ++ evsI) (app (entered o s))))
    as Hinit by exact HeqI.
  destruct r1 as [e|].
  { exists (e0 ++ evsI ++ cancel). split.
    - rewrite (Run_init_fails o ctx s e _ Hrun Hinit). simpl.
      by rewrite <- !app_assoc.
    - apply (discipline_compose c ms T (e0 ++ evsI ++ cancel) [] []); fin. }
  clear HeqI. specialize (HI5 eq_refl).
  set (s2 := mkState w1 (trace (entered o s) ++ evsI) (app (entered o s))) in *.
  destruct (runHooks_range_spec KBeforeStart BeforeStart c (hooks (app s)) s2)
    as (r2 & evsH & w2 & HeqH & HqH & _).
  assert (runHooksBeforeStart c s2 =
            (r2, mkState w2 (trace s2 ++ evsH) (app s2))) as Hbefore
    by exact HeqH.
  clear HeqH.
  destruct r2 as [e|].
  { exists (e0 ++ evsI ++ evsH ++ cancel). split.
    - rewrite (Run_beforeStart_fails o ctx s s2 e _ Hrun Hinit Hbefore). simpl.
      by rewrite <- !app_assoc.
    - apply (discipline_compose c ms T (e0 ++ evsI ++ evsH ++ cancel) [] []); fin. }
  set (s3 := mkState w2 (trace s2 ++ evsH) (app s2)) in *.
  set (starting := [EvLog LevelInfo "starting modules" []] : list (Event W)).
  assert (forall p, phase_calls p starting = []) as Hstarting by (by intros []).
  destruct (startAll_range_frame c ms [] (record_events s3 starting))
    as (res & evsS & w3 & HeqS & HS1 & HS2 & HS3 & HS4 & HS5 & HS6).
  assert (startAll c (record_events s3 starting) =
            (res, mkState w3 (trace (record_events s3 starting) ++ evsS)
                    (app (record_events s3 starting)))) as Hstart
    by exact HeqS.
  clear HeqS. destruct res as [l [e|]]; simpl in HS6.
  { destruct HS6 as [-> HS6]. exists ((e0 ++ evsI ++ evsH ++ starting) ++ evsS ++ cancel).
    split.
    - rewrite (Run_startAll_fails o ctx s s2 s3 None e _ Hrun Hinit Hbefore Hstart).
      simpl. by rewrite <- !app_assoc.
    - apply (discipline_compose c ms T (e0 ++ evsI ++ evsH ++ starting) evsS cancel);
        fin.
      by rewrite HS6. }
  destruct HS6 as (-> & HS6 & HS7 & HS8). simpl in *.
  set (s4 := mkState w3 (trace (record_events s3 starting) ++ evsS)
               (app (record_events s3 starting))) in *.
  destruct (runHooks_range_spec KAfterStart AfterStart c (hooks (app s)) s4)
    as (r4 & evsA & w4 & HeqA & HqA & _).
  assert (runHooksAfterStart c s4 =
            (r4, mkState w4 (trace s4 ++ evsA) (app s4))) as Hafter
    by exact HeqA.
  clear HeqA.
  set (s5 := mkState w4 (trace s4 ++ evsA) (app s4)) in *.
  destruct r4 as [e|].
  { set (failed := [EvLog LevelError "after start hook failed, shutting down"
                      [("error", LogErr (Some e))]] : list (Event W)).
    assert (forall p, phase_calls p failed = []) as Hfailed by (by intros []).
    destruct (shutdownModules_spec Background ms (record_events s5 failed))
      as (evsT & HeqT & HT1 & HT2 & HT3 & HT4 & _).
    exists ((e0 ++ evsI ++ evsH ++ starting) ++ evsS ++
            (evsA ++ failed ++ evsT ++ cancel)).
    split.
    - rewrite (Run_afterStart_fails o ctx s s2 s3 (Some ms) s4 e s5 _ _
                 Hrun Hinit Hbefore Hstart Hafter HeqT).
      simpl. by rewrite <- !app_assoc.
    - apply (discipline_compose c ms T (e0 ++ evsI ++ evsH ++ starting) evsS
               (evsA ++ failed ++ evsT ++ cancel)); fin.
      + rewrite HS8. apply prefix_nil.
      + calls. eapply Forall_impl; [exact HT2 |]. intros x Hx. by left.
      + intros _. split; [done |]. rewrite HS7. calls.
        unfold stop_calls in HT1. by rewrite HT1. }
  assert (started_up o ctx s s5) as Hup by (by exists s2, s3, (Some ms), s4).
  destruct (collectBackgroundErrors_spec s5) as (evsB & HeqB & HqB).
  match type of HeqB with _ = (?x, _) => set (ch := x) in * end.
  set (started := [EvLog LevelInfo "application started" []] : list (Event W)).
  assert (forall p, phase_calls p started = []) as Hstarted by (by intros []).
  pose proof (Run_started o ctx s s5 ch _ Hrun Hup HeqB) as Heq.
  cbv zeta in Heq.
  destruct (select_pick (preferBg o)
              (select_ready (ctxDone o) (run_tasks (bgTasks o) <$> ch)))
    as [pick|] eqn:Hpick.
  2: { exists ((e0 ++ evsI ++ evsH ++ starting) ++ evsS ++
               (evsA ++ evsB ++ started)).
       split.
       - rewrite Heq. simpl. by rewrite <- !app_assoc.
       - apply (discipline_compose c ms T (e0 ++ evsI ++ evsH ++ starting) evsS
                  (evsA ++ evsB ++ started)); fin.
         rewrite HS8. apply prefix_nil. }
  set (picked :=
         match pick with
         | CaseCtxDone => [EvLog LevelInfo "shutdown signal received" []]
         | CaseBgErr =>
             [EvLog LevelError "background module failed"
                [("error", LogErr ((run_tasks (bgTasks o) <$> ch) ≫= chan_recv))];
              EvCancel (WithCancel ctx)]
         end : list (Event W)) in *.
  assert (forall p, phase_calls p picked = []) as Hpicked
    by (subst picked; destruct pick; by intros []).
  match type of Heq with
  | _ = (Returned (shutdown o ?st).1, _) => set (sd := st) in *
  end.
  destruct (shutdown_spec o sd)
    as (before & evs0 & base & evs1 & after & evs2 & w' & _ & Hq0 & _ &
        (Hcalls & Hctx & Hi1 & Hst1 & _) & _ & _ & Hq2 & _ & _ & Hsd).
  assert (app sd = app (entered o s)) as Happ by done.
  rewrite Happ in Hcalls, Hctx, Hsd. simpl in Hcalls, Hctx, Hsd.
  fold T ms in Hcalls, Hctx, Hsd.
  set (down := shutdown_events T before evs0 base evs1 after evs2) in *.
  exists ((e0 ++ evsI ++ evsH ++ starting) ++ evsS ++
          (evsA ++ evsB ++ started ++ picked ++ down ++ cancel)).
  split.
  - rewrite Heq, Hsd. simpl. by rewrite <- !app_assoc.
  - assert (phase_calls PStop down = phase_calls PStop evs1) as Hdown
      by (by apply shutdown_events_calls).
    assert (phase_calls PInit down = []) as Hdown1
      by (unfold down; by rewrite (shutdown_events_calls PInit)).
    assert (phase_calls PStart down = []) as Hdown2
      by (unfold down; by rewrite (shutdown_events_calls PStart)).
    clearbody down.
    apply (discipline_compose c ms T (e0 ++ evsI ++ evsH ++ starting) evsS
             (evsA ++ evsB ++ started ++ picked ++ down ++ cancel)); fin.
    + rewrite HS8. apply prefix_nil.
    + calls. rewrite Hdown. eapply Forall_impl; [exact Hctx |].
      intros x ->. destruct (0 <? T); [by right | by left].
    + intros _. split; [done |]. rewrite HS7. calls. rewrite Hdown.
      unfold stop_calls in Hcalls. rewrite Hcalls.
      destruct (0 <? T); [| done]. destruct (race o) as [|k]; [done |].
      exists (reverse (take (length ms - k) ms)).
      by rewrite <- reverse_app, take_drop.
Qed.

End LifecycleProperties.

Lemma Run_lifecycle_discipline_witness :
  let o := mkSched 1 2 true [] false (TimerFirst 1) in
  let s := sampleState [db; cache] [warmupFails] 10 in
  isRunning (app s) = false /\
  exists evs,
    trace (Run o Background s).2 = trace s ++ evs /\
    lifecycle_discipline (runCtx o Background s) [db; cache] 10 evs.
Proof.
  intros o s. split; [reflexivity |].
  exact (Run_lifecycle_discipline o Background s eq_refl).
Defined.

Section WaitProperties.

Context {W : Type}.

Implicit Types (s : State W) (o : Sched).

(** X11: Once the start-up has succeeded, [Run] stays blocked in its [select]
    exactly when the run context is not cancelled and no receive on the
    background channel is ready: the channel is nil (no background
    module), or it is open and empty. While blocked, [Run] has stopped no
    module and the application is marked as running. *)
Theorem Run_blocks_iff_nothing_fires o ctx s s5 ch s6 :
  isRunning (app s) = false ->
  started_up o ctx s s5 ->
  collectBackgroundErrors s5 = (ch, s6) ->
  ((Run o ctx s).1 = Blocked <->
   ctxDone o = false /\
   forall a, ch = Some a -> chan_ready (run_tasks (bgTasks o) a) = false) /\
  ((Run o ctx s).1 = Blocked ->
   (Run o ctx s).2 = record_events s6 [EvLog LevelInfo "application started" []] /\
   isRunning (app (Run o ctx s).2) = true) /\
  (ctxDone o = true -> exists r, (Run o ctx s).1 = Returned r).
Proof.
  intros Hrun Hup Hcollect.
  pose proof (Run_started o ctx s s5 ch s6 Hrun Hup Hcollect) as Heq.
  cbv zeta in Heq.
  destruct (started_up_app o ctx s s5 ch s6 Hup Hcollect) as [_ Happ].
  unfold select_ready, select_pick in Heq.
  destruct (ctxDone o), ch as [a|]; simpl in Heq;
    try destruct (chan_ready (run_tasks (bgTasks o) a)) eqn:Hready;
    simpl in Heq; try destruct (preferBg o); rewrite Heq; simpl.
  all: split_and!;
    [split; [try done | intros [Hd Hch]; try done;
                        try (specialize (Hch a eq_refl); congruence)]
    | try done | intros; try done; by eexists].
  all: try (intros _; split; [done |]; intros a' Ha'; by simplify_eq).
  all: try (intros _; by rewrite Happ).
Qed.

End WaitProperties.

Lemma Run_blocks_iff_nothing_fires_witness :
  let o := mkSched 1 2 false [TReader 0] false StopFirst in
  let s := sampleState [db; sample "idle" None None None (Some RecvBlock)] [] 10 in
  let c := runCtx o Background s in
  let s2 := (initAll c (entered o s)).2 in
  let s3 := (runHooksBeforeStart c s2).2 in
  let s4 := (startAll c
               (record_events s3 [EvLog LevelInfo "starting modules" []])).2 in
  let s5 := (runHooksAfterStart c s4).2 in
  let a := mkFanIn [mkReader "idle" RecvBlock AtRecv] [] 1 false 1 in
  isRunning (app s) = false /\
  started_up o Background s s5 /\
  (collectBackgroundErrors s5).1 = Some a /\
  chan_ready (run_tasks (bgTasks o) a) = false /\
  (Run o Background s).1 = Blocked /\
  isRunning (app (Run o Background s).2) = true.
Proof.
  intros o s c s2 s3 s4 s5 a.
  assert (started_up o Background s s5) as Hup.
  { exists s2, s3, (Some [db; sample "idle" None None None (Some RecvBlock)]), s4.
    split_and!; reflexivity. }
  destruct (Run_blocks_iff_nothing_fires o Background s s5 (Some a)
              (collectBackgroundErrors s5).2 eq_refl Hup eq_refl)
    as (_ & Hb & _).
  split_and!; [reflexivity | exact Hup | reflexivity | reflexivity | reflexivity |].
  exact (proj2 (Hb eq_refl)).
Defined.

Section FanInClosing.

Context {W : Type}.

Implicit Types (s : State W) (a : FanIn) (ts : list Task).

Lemma collected_fanin_inv s a s' :
  collectBackgroundErrors s = (Some a, s') -> fanin_inv a.
Proof.
  intros ->%collected_fanin. split; simpl; [| done].
  by rewrite count_unfinished_fresh.
Qed.

Lemma step_task_closed (t : Task) a :
  closed a = true ->
  Forall (fun r => r_pc r = Finished) (readers a) ->
  step_task t a = a.
Proof.
  intros Hc Hall. destruct t as [i|]; simpl.
  - unfold step_reader. destruct (readers a !! i) as [r|] eqn:Hr; [| done].
    rewrite Forall_lookup in Hall. by rewrite (Hall i r Hr).
  - unfold step_closer. by rewrite Hc.
Qed.

(** X21: Closing [merged] is the last thing that happens in the fan-in: in
    every schedule, once the channel is closed all readers have returned,
    the wait group is at zero, and no goroutine takes a further step, so
    that nothing is ever sent on the closed channel. *)
Theorem fanin_close_is_final s a s' ts :
  collectBackgroundErrors s = (Some a, s') ->
  closed (run_tasks ts a) = true ->
  Forall (fun r => r_pc r = Finished) (readers (run_tasks ts a)) /\
  wg (run_tasks ts a) = 0%nat /\
  forall ts', run_tasks ts' (run_tasks ts a) = run_tasks ts a.
Proof.
  intros Hc Hclosed.
  pose proof (run_tasks_inv ts a (collected_fanin_inv s a s' Hc)) as Hinv.
  pose proof (closed_after_readers _ Hinv Hclosed) as Hall.
  split_and!; [done | by apply Hinv |].
  intros ts'. induction ts' as [|t ts' IH]; [done |].
  simpl. by rewrite step_task_closed.
Qed.

End FanInClosing.

Lemma fanin_close_is_final_witness :
  let s := sampleState [crasher; db; worker] [] 10 in
  let a := mkFanIn [mkReader "crasher"
                      (RecvValue (Some (External "connection lost"))) AtRecv;
                    mkReader "worker" RecvClosed AtRecv]
             [] 2 false 2 in
  let ts := [TCloser; TReader 1; TReader 0; TReader 1; TReader 0; TCloser;
             TReader 0; TCloser] in
  (collectBackgroundErrors s).1 = Some a /\
  closed (run_tasks ts a) = true /\
  wg (run_tasks ts a) = 0%nat /\
  run_tasks [TReader 0; TReader 1; TCloser] (run_tasks ts a) = run_tasks ts a.
Proof.
  intros s a ts.
  destruct (fanin_close_is_final s a (collectBackgroundErrors s).2 ts
              eq_refl eq_refl) as (_ & Hwg & Hfinal).
  split_and!; [reflexivity | reflexivity | exact Hwg |].
  exact (Hfinal [TReader 0; TReader 1; TCloser]).
Defined.

Section StartupProperties.

Context {W : Type}.

Implicit Types (s : State W) (o : Sched).

(** X8: When the start-up succeeds, every registered module has been
    initialised and then started, once each and in registration order,
    every [Start] has returned nil, and no module has been stopped. *)
Theorem started_up_runs_every_module o ctx s s5 :
  started_up o ctx s s5 ->
  let ms := getAll (app_registry (app s)) in
  exists evs,
    trace s5 = trace s ++ evs /\
    init_calls evs = ms /\
    start_calls evs = ms /\
    started_ok evs = ms /\
    stop_calls evs = [] /\
    in_lifecycle_order evs /\
    Forall (fun x => x.1.2 = runCtx o ctx s) (phase_calls PInit evs) /\
    Forall (fun x => x.1.2 = runCtx o ctx s) (phase_calls PStart evs).
Proof.
  intros (s2 & s3 & l & s4 & Hinit & Hbefore & Hstart & Hafter) ms.
  set (c := runCtx o ctx s) in *.
  destruct (initAll_range_frame c ms (entered o s))
    as (r1 & evsI & w1 & HeqI & HI1 & HI2 & HI3 & HI4 & HI5).
  change (initAll_range c ms (entered o s)) with (initAll c (entered o s)) in HeqI.
  rewrite Hinit in HeqI. injection HeqI as <- ->. specialize (HI5 eq_refl).
  match type of Hbefore with
  | runHooksBeforeStart _ ?st = _ =>
      destruct (runHooks_range_spec KBeforeStart BeforeStart c (hooks (app s)) st)
        as (r2 & evsH & w2 & HeqH & HqH & _);
      change (runHooks_range KBeforeStart BeforeStart c (hooks (app s)) st)
        with (runHooksBeforeStart c st) in HeqH
  end.
  rewrite Hbefore in HeqH. injection HeqH as <- ->.
  match type of Hstart with
  | startAll _ ?st = _ =>
      destruct (startAll_range_frame c ms [] st)
        as (res & evsS & w3 & HeqS & HS1 & HS2 & HS3 & HS4 & HS5 & HS6);
      change (startAll_range c ms [] st) with (startAll c st) in HeqS
  end.
  rewrite Hstart in HeqS. injection HeqS as <- ->. simpl in HS6.
  destruct HS6 as (_ & HS6 & HS7 & HS8).
  match type of Hafter with
  | runHooksAfterStart _ ?st = _ =>
      destruct (runHooks_range_spec KAfterStart AfterStart c (hooks (app s)) st)
        as (r4 & evsA & w4 & HeqA & HqA & _);
      change (runHooks_range KAfterStart AfterStart c (hooks (app s)) st)
        with (runHooksAfterStart c st) in HeqA
  end.
  rewrite Hafter in HeqA. injection HeqA as <- ->.
  set (e0 := [EvGo "setupSignalHandler";
              EvLog LevelInfo "initializing modules" []] : list (Event W)).
  set (starting := [EvLog LevelInfo "starting modules" []] : list (Event W)).
  exists ((e0 ++ evsI ++ evsH ++ starting) ++ evsS ++ evsA).
  assert (forall p, phase_calls p e0 = []) as He0 by (by intros []).
  assert (forall p, phase_calls p starting = []) as Hstarting by (by intros []).
  split_and!.
  - simpl. by rewrite <- !app_assoc.
  - unfold init_calls in *. by rewrite !phase_calls_app, He0, HqH, Hstarting, HS1, HqA,
      !app_nil_r.
  - unfold start_calls in *. by rewrite !phase_calls_app, He0, HI2, HqH, Hstarting, HqA,
      !app_nil_r.
  - unfold started_ok in *. by rewrite !phase_calls_app, He0, HI2, HqH, Hstarting, HqA,
      !app_nil_r.
  - unfold stop_calls in *. rewrite !phase_calls_app, He0, HI3, HqH, Hstarting, HqA.
    simpl. rewrite app_nil_r. exact HS8.
  - apply in_lifecycle_order_app.
    + apply only_init_order;
        by rewrite !phase_calls_app, He0, ?HI2, ?HI3, HqH, Hstarting.
    + apply in_lifecycle_order_app;
        [done | by apply only_stop_order | done | by left].
    + by rewrite phase_calls_app, HS1, HqA.
    + right. by rewrite !phase_calls_app, He0, HI3, HqH, Hstarting.
  - rewrite !phase_calls_app, He0, HqH, Hstarting, HS1, HqA, !app_nil_r. exact HI1.
  - rewrite !phase_calls_app, He0, HI2, HqH, Hstarting, HqA, !app_nil_r. exact HS2.
Qed.

End StartupProperties.

Lemma started_up_runs_every_module_witness :
  let o := mkSched 1 2 false [] false StopFirst in
  let s := sampleState [db; cache] [] 10 in
  let c := runCtx o Background s in
  let s2 := (initAll c (entered o s)).2 in
  let s3 := (runHooksBeforeStart c s2).2 in
  let s4 := (startAll c
               (record_events s3 [EvLog LevelInfo "starting modules" []])).2 in
  let s5 := (runHooksAfterStart c s4).2 in
  started_up o Background s s5 /\
  world s5 = ["db.Init"; "cache.Init"; "db.Start"; "cache.Start"] /\
  exists evs,
    trace s5 = trace s ++ evs /\
    init_calls evs = [db; cache] /\
    start_calls evs = [db; cache] /\
    stop_calls evs = [].
Proof.
  intros o s c s2 s3 s4 s5.
  assert (started_up o Background s s5) as Hup.
  { exists s2, s3, (Some [db; cache]), s4. split_and!; reflexivity. }
  destruct (started_up_runs_every_module o Background s s5 Hup)
    as (evs & Htr & Hi & Hst & _ & Hsp & _).
  split; [exact Hup |]. split; [reflexivity |].
  exists evs. split_and!; [exact Htr | exact Hi | exact Hst | exact Hsp].
Defined.

Section FanInDraining.

Context {W : Type}.

Implicit Types (s : State W) (a : FanIn) (ts : list Task).

Lemma run_tasks_app ts1 ts2 a :
  run_tasks (ts1 ++ ts2) a = run_tasks ts2 (run_tasks ts1 a).
Proof. unfold run_tasks. apply fold_left_app. Qed.

(** One reader taken from its receive to its return, the readers before
    it having returned already. *)
Lemma reader_runs_through (done rest : list Reader) (r : Reader)
    (buf : list error) (n k : nat) :
  r_pc r = AtRecv -> r_chan r <> RecvBlock ->
  (length buf < n)%nat ->
  let i := length done in
  run_tasks [TReader i; TReader i; TReader i]
    (mkFanIn (done ++ r :: rest) buf n false (S k)) =
  mkFanIn ((done ++ [finished r]) ++ rest)
    (buf ++ match reader_error r with Some e => [e] | None => [] end)
    n false k.
Proof.
  intros Hpc Hch Hlt i. subst i.
  assert (forall r0 buf0 k0,
            (mkFanIn (done ++ r0 :: rest) buf0 n false k0).(readers) !! length done
            = Some r0) as Hlook.
  { intros r0 buf0 k0. simpl. by rewrite list_lookup_middle. }
  assert (forall r0 r1, <[length done := r1]> (done ++ r0 :: rest) =
                        done ++ r1 :: rest) as Hins.
  { intros r0 r1. rewrite insert_app_r_alt by lia.
    by rewrite Nat.sub_diag. }
  unfold run_tasks, reader_error. simpl.
  unfold step_reader at 3. rewrite Hlook, Hpc.
  destruct (r_chan r) as [| |[e|]] eqn:Hc; [done | | |]; simpl; rewrite Hins.
  - unfold step_reader at 2. rewrite Hlook. simpl. rewrite ?Hins.
    unfold step_reader. rewrite Hlook. simpl. rewrite ?Hins, Nat.sub_0_r.
    by rewrite app_nil_r, <- app_assoc.
  - unfold step_reader at 2. rewrite Hlook. simpl.
    apply Nat.ltb_lt in Hlt. rewrite Hlt. simpl. rewrite ?Hins.
    unfold step_reader. rewrite Hlook. simpl. rewrite ?Hins, Nat.sub_0_r.
    by rewrite <- app_assoc.
  - unfold step_reader at 2. rewrite Hlook. simpl. rewrite ?Hins.
    unfold step_reader. rewrite Hlook. simpl. rewrite ?Hins, Nat.sub_0_r.
    by rewrite app_nil_r, <- app_assoc.
Qed.

Lemma readers_run_through (rest : list Reader) :
  forall (done : list Reader) (buf : list error) (n : nat),
    Forall (fun r => r_pc r = AtRecv /\ r_chan r <> RecvBlock) rest ->
    (length buf + length rest <= n)%nat ->
    run_tasks
      (flat_map (fun i => [TReader i; TReader i; TReader i])
         (seq (length done) (length rest)))
      (mkFanIn (done ++ rest) buf n false (length rest)) =
    mkFanIn (done ++ (finished <$> rest)) (buf ++ omap reader_error rest)
      n false 0.
Proof.
  induction rest as [|r rest IH]; intros done buf n Hall Hlen.
  - simpl. by rewrite !app_nil_r.
  - apply Forall_cons in Hall as [[Hpc Hch] Hall]. simpl in Hlen.
    cbn [length seq flat_map]. rewrite run_tasks_app.
    rewrite (reader_runs_through done rest r buf n (length rest) Hpc Hch)
      by lia.
    specialize (IH (done ++ [finished r])
                  (buf ++ match reader_error r with Some e => [e] | None => [] end)
                  n Hall).
    replace (length (done ++ [finished r])) with (S (length done)) in IH
      by (rewrite length_app; simpl; lia).
    rewrite IH.
    + rewrite <- !app_assoc. simpl. by destruct (reader_error r).
    + rewrite length_app. destruct (reader_error r); simpl; lia.
Qed.

(** X22: The fan-in drains: when every background module's channel delivers
    something (a value, or its closing), running the readers one after
    the other and then the closer leaves [merged] closed, holding the
    wrapped errors of the modules that reported one, in registration
    order, with every reader returned; the receive in [Run] is then
    ready. *)
Theorem fanin_drains_when_channels_deliver s a s' :
  collectBackgroundErrors s = (Some a, s') ->
  Forall (fun r => r_chan r <> RecvBlock) (readers a) ->
  let a' := run_tasks (one_by_one (length (readers a))) a in
  closed a' = true /\
  merged a' = omap reader_error (readers a) /\
  readers a' = finished <$> readers a /\
  chan_ready a' = true /\
  chan_recv a' = head (omap reader_error (readers a)).
Proof.
  intros Hc Hdeliver a'.
  pose proof (collected_fanin s a s' Hc) as Ha. cbv zeta in Ha.
  set (rs := (fun bg : string * (W -> Recv) => mkReader bg.1 (bg.2 (world s)) AtRecv)
               <$> bgModules_of (getAll (app_registry (app s)))) in *.
  assert (a = mkFanIn rs [] (length rs) false (length rs)) as Ha'.
  { rewrite Ha. subst rs. by rewrite length_fmap. }
  assert (Forall (fun r => r_pc r = AtRecv /\ r_chan r <> RecvBlock) rs) as Hall.
  { rewrite Ha' in Hdeliver. simpl in Hdeliver.
    apply Forall_forall. intros r Hr. split.
    - subst rs. by apply list_elem_of_fmap in Hr as (bg & -> & _).
    - rewrite Forall_forall in Hdeliver. by apply Hdeliver. }
  assert (a' = mkFanIn (finished <$> rs) (omap reader_error rs) (length rs) true 0)
    as ->.
  { subst a'. rewrite Ha'. simpl. unfold one_by_one. rewrite run_tasks_app.
    pose proof (readers_run_through rs [] [] (length rs) Hall) as H.
    simpl in H. rewrite H by lia. done. }
  rewrite Ha'. simpl. split_and!; try done.
  unfold chan_ready. simpl. by destruct (omap reader_error rs).
Qed.

End FanInDraining.

Lemma fanin_drains_when_channels_deliver_witness :
  let s := sampleState [crasher; db; worker] [] 10 in
  let a := mkFanIn [mkReader "crasher"
                      (RecvValue (Some (External "connection lost"))) AtRecv;
                    mkReader "worker" RecvClosed AtRecv]
             [] 2 false 2 in
  let a' := run_tasks (one_by_one 2) a in
  (collectBackgroundErrors s).1 = Some a /\
  Forall (fun r => r_chan r <> RecvBlock) (readers a) /\
  closed a' = true /\
  merged a' =
    [Errorf "background module %q: %w" ["crasher"] (External "connection lost")].
Proof.
  intros s a a'.
  assert (Forall (fun r => r_chan r <> RecvBlock) (readers a)) as H
    by (repeat constructor; discriminate).
  destruct (fanin_drains_when_channels_deliver s a (collectBackgroundErrors s).2
              eq_refl H) as (Hc & Hm & _).
  split_and!; [reflexivity | exact H | exact Hc | exact Hm].
Defined.
